(** * Link extraction and DOCX assembly (app.py): a shallow embedding

    The development follows the two classes of [app.py]:
    - [LinkExtractor]: the readiness wait, the anchor filter, the
      de-duplication loop and the table-of-contents serializer;
    - [DocxManager]: the document assembler and its three-tier hyperlink
      embedding routine.

    Strings are sequences of characters ([string]); Python dictionaries with
    a fixed set of keys are records; loops are folds over an explicit loop
    state; code that can raise runs in a small state-and-exception monad. *)

From Stdlib Require Import Ascii String.
From stdpp Require Import base option list strings gmap pretty.

Local Open Scope string_scope.
Local Open Scope list_scope.
Local Open Scope stdpp_scope.
Local Open Scope nat_scope.

Set Warnings "-register-all".

(** ** Python and JavaScript string primitives

    A character is one 8-bit code. The strings of the program are Unicode;
    the primitives below are those of Python and JavaScript on text in the
    ASCII range, and leave every other code as it is. *)

Module Str.

(** [str.isspace] on one character: TAB, LF, VT, FF, CR, the separators
    FS, GS, RS, US and the space. *)
Definition py_isspace (c : ascii) : bool :=
  let n := nat_of_ascii c in
  (((9 <=? n) && (n <=? 13)) || ((28 <=? n) && (n <=? 32)))%nat.

(** White space of JavaScript's [String.prototype.trim] among the
    one-unit characters: TAB, LF, VT, FF, CR and the space. *)
Definition js_isspace (c : ascii) : bool :=
  let n := nat_of_ascii c in
  (((9 <=? n) && (n <=? 13)) || (n =? 32))%nat.

Fixpoint lstrip_with (sp : ascii → bool) (s : string) : string :=
  match s with
  | EmptyString => EmptyString
  | String c s' => if sp c then lstrip_with sp s' else s
  end.

Definition strip_with (sp : ascii → bool) (s : string) : string :=
  String.rev (lstrip_with sp (String.rev (lstrip_with sp s))).

(** [s.strip()] *)
Definition strip : string → string := strip_with py_isspace.

(** [s.trim()] *)
Definition trim : string → string := strip_with js_isspace.

Definition lower_char (c : ascii) : ascii :=
  let n := nat_of_ascii c in
  if ((65 <=? n) && (n <=? 90))%nat then ascii_of_nat (n + 32) else c.

(** [s.lower()] *)
Fixpoint lower (s : string) : string :=
  match s with
  | EmptyString => EmptyString
  | String c s' => String (lower_char c) (lower s')
  end.

(** [s.startswith(p)] *)
Definition startswith (p s : string) : bool := String.prefix p s.

(** [needle in hay] *)
Fixpoint contains (needle hay : string) : bool :=
  String.prefix needle hay ||
  match hay with
  | EmptyString => false
  | String _ hay' => contains needle hay'
  end.

(** Truth value of a string: [bool(s)]. *)
Definition truthy (s : string) : bool :=
  match s with EmptyString => false | String _ _ => true end.

(** [s * n] *)
Fixpoint repeat (s : string) (n : nat) : string :=
  match n with O => EmptyString | S n' => s +:+ repeat s n' end.

(** The double quote, as a one-character string. *)
Definition dquote : string := String "034"%char EmptyString.

(** The line feed, as a one-character string. *)
Definition newline : string := String "010"%char EmptyString.

End Str.

(** ** [class LinkExtractor] *)

Module LinkExtractor.

(** One entry of the list returned by [JS_CRAWL_ANCHORS]:
    [{href: node.href, text: node.innerText.trim()}]. *)
Record Anchor := { a_href : string; a_text : string }.

(** The dictionary appended at lines 110-114. *)
Record Link := { text : string; url : string; original_href : string }.

Global Instance Link_eq_dec : EqDecision Link.
Proof. solve_decision. Defined.

(** *** The filter loop (lines 95-114) *)

Definition noise_words : list string :=
  ["home"; "login"; "support"; "contact"; "privacy"; "terms"; "footer";
   "navigation"; "refresh"; "print"].

(** [any(word in text.lower() for word in [...])] *)
Definition is_noise (text : string) : bool :=
  existsb (λ word, Str.contains word (Str.lower text)) noise_words.

(** One iteration of [for item in raw_links]; [links] is the list built so
    far, every [continue] leaves it as it is. *)
Definition filter_step (links : list Link) (item : Anchor) : list Link :=
  let href := a_href item in
  let text := Str.strip (a_text item) in
  if negb (Str.truthy text) || negb (Str.truthy href) then links
  else if negb (Str.contains "release-notes" href) then links
  else if is_noise text then links
  else links ++ [ {| text := text; url := href; original_href := href |} ].

Definition filter_links (raw_links : list Anchor) : list Link :=
  foldl filter_step [] raw_links.

(** *** The de-duplication loop (lines 122-128) *)

(** One iteration of [for link in links] on the loop state
    [(seen_urls, unique_links)]. *)
Definition dedupe_step (st : gset string * list Link) (link : Link)
  : gset string * list Link :=
  let '(seen_urls, unique_links) := st in
  if decide (url link ∈ seen_urls) then st
  else ({[ url link ]} ∪ seen_urls, unique_links ++ [link]).

Definition dedupe (links : list Link) : list Link :=
  (foldl dedupe_step (∅, []) links).2.

(** Filter, then remove duplicates: the value stored under ['links']. *)
Definition classify (raw_links : list Anchor) : list Link :=
  dedupe (filter_links raw_links).

(** *** The readiness predicate (line 58)

    [d.title and "Help And Training Community" not in d.title
     and "Login" not in d.title] *)
Definition title_ready (title : string) : bool :=
  Str.truthy title
  && negb (Str.contains "Help And Training Community" title)
  && negb (Str.contains "Login" title).

(** *** The table-of-contents serializer ([JS_TOC_TREE], lines 133-148) *)

Inductive Tag := A | UL | LI | OtherTag (name : string).

Global Instance Tag_eq_dec : EqDecision Tag.
Proof. solve_decision. Defined.

(** An element of the rendered page, with what the script reads of it:
    its tag, the resolved [href] property when the attribute is present,
    its [innerText] and its child elements. *)
Inductive Element :=
  Elem (tag : Tag) (href : option string) (innerText : string)
       (children : list Element).

Definition tag_of (e : Element) : Tag := let 'Elem t _ _ _ := e in t.
Definition children_of (e : Element) : list Element :=
  let 'Elem _ _ _ ks := e in ks.

(** [{text, url, children}] *)
Inductive TocNode :=
  Node (node_text : string) (node_url : option string)
       (node_children : list TocNode).

Definition node_text (n : TocNode) : string := let 'Node t _ _ := n in t.
Definition node_url (n : TocNode) : option string := let 'Node _ u _ := n in u.
Definition node_children (n : TocNode) : list TocNode :=
  let 'Node _ _ c := n in c.

(** [node.querySelector(':scope > a[href]')]: the first child that is an
    anchor carrying an [href], as (innerText, href). *)
Fixpoint direct_link (kids : list Element) : option (string * string) :=
  match kids with
  | [] => None
  | Elem A (Some h) txt _ :: _ => Some (txt, h)
  | _ :: rest => direct_link rest
  end.

Definition is_tag (t : Tag) (e : Element) : bool := bool_decide (tag_of e = t).

(** [node.querySelectorAll(':scope > ul > li')] in document order. *)
Definition child_lis (kids : list Element) : list Element :=
  flat_map (λ ul, List.filter (is_tag LI) (children_of ul))
           (List.filter (is_tag UL) kids).

(** [serialize(node)]. The two inner loops walk the [ul] children of the
    node and the [li] children of each of them, that is [child_lis], and
    serialize every item found ([serialize_unfold] below). *)
Fixpoint serialize (node : Element) : TocNode :=
  match node with
  | Elem _ _ innerText kids =>
      let '(text, url) :=
        match direct_link kids with
        | Some (a_innerText, a_href) => (Str.trim a_innerText, Some a_href)
        | None => (Str.trim innerText, None)
        end in
      Node text url
        ((fix over_uls (kids : list Element) : list TocNode :=
            match kids with
            | [] => []
            | Elem UL _ _ items :: rest =>
                (fix over_lis (items : list Element) : list TocNode :=
                   match items with
                   | [] => []
                   | (Elem LI _ _ _ as li) :: more =>
                       serialize li :: over_lis more
                   | _ :: more => over_lis more
                   end) items ++ over_uls rest
            | _ :: rest => over_uls rest
            end) kids)
  end.

(** The body of [JS_TOC_TREE] after [toc] was located: [toc] is the result
    of [document.querySelector('[class*="table-of-content"] ul')], [None]
    when there is no such element. *)
Definition toc_tree_of (toc : option Element) : list TocNode :=
  match toc with
  | None => []
  | Some ul => map serialize (List.filter (is_tag LI) (children_of ul))
  end.

(** *** The browser session, as far as the extractor observes it *)

(** The result of a call that may raise. *)
Inductive Exc (A : Type) := Value (a : A) | Raises.
Global Arguments Value {A} a.
Global Arguments Raises {A}.

(** What the driver shows after [driver.get(url)]: the titles seen by the
    successive polls of [wait.until] before its deadline, [driver.title]
    as read after the wait, and the results of the two scripts. *)
Record Page := {
  polled_titles : list string;
  title : string;
  crawl_anchors : Exc (list Anchor);
  locate_toc : Exc (option Element);
}.

(** [driver.get(url)]: the page, unless navigation raises. *)
Definition Driver := string → Exc Page.

Inductive WaitOutcome := Returned | TimeoutException.

(** [WebDriverWait(driver, 25).until(method)]: the method is polled until
    it yields a true value; when the deadline passes first the wait raises
    [TimeoutException]. *)
Fixpoint wait_until (method : string → bool) (polls : list string)
  : WaitOutcome :=
  match polls with
  | [] => TimeoutException
  | d_title :: later =>
      if method d_title then Returned else wait_until method later
  end.

(** The dictionary returned by [extract_links_from_url]. *)
Record Extraction := {
  links : list Link;
  toc_tree : list TocNode;
  page_title : string;
}.

Definition placeholder (page_title : string) : Extraction :=
  {| links := []; toc_tree := []; page_title := page_title |}.

(** [extract_links_from_url(url)]; [driver] is what
    [_get_selenium_driver] returned, [None] when it failed. *)
Definition extract_links_from_url (driver : option Driver) (url : string)
  : Extraction :=
  match driver with
  | None => placeholder "Error: WebDriver initialization failed"
  | Some driver =>
      match driver url with
      | Raises => placeholder ("Error: " +:+ url)
      | Value page =>
          match wait_until title_ready (polled_titles page) with
          | TimeoutException => placeholder ("Error: Timeout for " +:+ url)
          | Returned =>
              let page_title := title page in
              match crawl_anchors page with
              | Raises => placeholder ("Error: " +:+ url)
              | Value raw_links =>
                  let unique_links := classify raw_links in
                  match locate_toc page with
                  | Raises => placeholder ("Error: " +:+ url)
                  | Value toc =>
                      {| links := unique_links;
                         toc_tree := toc_tree_of toc;
                         page_title := page_title |}
                  end
              end
          end
      end
  end.

End LinkExtractor.

(** ** [class DocxManager] *)

Module DocxManager.

Abbreviation Link := LinkExtractor.Link.
Abbreviation TocNode := LinkExtractor.TocNode.

(** One entry of [extracted_data]. *)
Record UrlData := {
  source_url : string;
  page_title : string;
  links : list Link;
  toc_tree : list TocNode;
}.

(** *** The document under construction *)

(** A text run and the character formatting the assembler sets on it. *)
Record Run := {
  run_text : string;
  bold : bool;
  italic : bool;
  underline : bool;
  color_rgb : option (N * N * N);
  font_size : option N;
}.

(** [paragraph.add_run(text)] creates a run without formatting. *)
Definition new_run (text : string) : Run :=
  {| run_text := text; bold := false; italic := false; underline := false;
     color_rgb := None; font_size := None |}.

Definition set_bold (r : Run) : Run :=
  {| run_text := run_text r; bold := true; italic := italic r;
     underline := underline r; color_rgb := color_rgb r;
     font_size := font_size r |}.

Definition set_italic (r : Run) : Run :=
  {| run_text := run_text r; bold := bold r; italic := true;
     underline := underline r; color_rgb := color_rgb r;
     font_size := font_size r |}.

Definition set_underline (r : Run) : Run :=
  {| run_text := run_text r; bold := bold r; italic := italic r;
     underline := true; color_rgb := color_rgb r;
     font_size := font_size r |}.

Definition set_color (rgb : N * N * N) (r : Run) : Run :=
  {| run_text := run_text r; bold := bold r; italic := italic r;
     underline := underline r; color_rgb := Some rgb;
     font_size := font_size r |}.

Definition set_size (sz : option N) (r : Run) : Run :=
  {| run_text := run_text r; bold := bold r; italic := italic r;
     underline := underline r; color_rgb := color_rgb r;
     font_size := sz |}.

(** [RGBColor(5, 99, 193)] *)
Definition hyperlink_blue : N * N * N := (5, 99, 193)%N.

(** An XML element: tag, attributes, text and children. *)
Inductive Xml :=
  XElem (tag : string) (attrs : list (string * string)) (xtext : string)
        (kids : list Xml).

(** What a paragraph holds: runs made through [add_run], elements
    appended to [paragraph._element], and the page break. *)
Inductive Inline := IRun (r : Run) | IElement (x : Xml) | IPageBreak.

Record Paragraph := {
  heading_level : option nat;
  centered : bool;
  left_indent : option N;
  content : list Inline;
}.

Definition empty_paragraph : Paragraph :=
  {| heading_level := None; centered := false; left_indent := None;
     content := [] |}.

Definition heading (text : string) (level : nat) : Paragraph :=
  {| heading_level := Some level; centered := false; left_indent := None;
     content := [IRun (new_run text)] |}.

Definition page_break : Paragraph :=
  {| heading_level := None; centered := false; left_indent := None;
     content := [IPageBreak] |}.

Definition center (p : Paragraph) : Paragraph :=
  {| heading_level := heading_level p; centered := true;
     left_indent := left_indent p; content := content p |}.

Definition indent (emu : N) (p : Paragraph) : Paragraph :=
  {| heading_level := heading_level p; centered := centered p;
     left_indent := Some emu; content := content p |}.

Definition append_inline (i : Inline) (p : Paragraph) : Paragraph :=
  {| heading_level := heading_level p; centered := centered p;
     left_indent := left_indent p; content := content p ++ [i] |}.

(** [Inches(0.25 * level)], in English Metric Units (914400 to the inch):
    a quarter of an inch is 228600 EMU. *)
Definition Inches_quarter (level : nat) : N := (228600 * N.of_nat level)%N.

(** *** lxml element construction (tier two) *)

Definition ns_w : string :=
  "http://schemas.openxmlformats.org/wordprocessingml/2006/main".
Definition ns_r : string :=
  "http://schemas.openxmlformats.org/officeDocument/2006/relationships".

(** [qn('w:tag')] and [qn('r:tag')]: the Clark name of the tag. *)
Definition qn_w (local : string) : string := "{" +:+ ns_w +:+ "}" +:+ local.
Definition qn_r (local : string) : string := "{" +:+ ns_r +:+ "}" +:+ local.

Definition makeelement (tag : string) : Xml := XElem tag [] "" [].
Definition xset (k v : string) (x : Xml) : Xml :=
  let 'XElem t a s c := x in XElem t (a ++ [(k, v)]) s c.
Definition xset_text (s : string) (x : Xml) : Xml :=
  let 'XElem t a _ c := x in XElem t a s c.
Definition xappend (child : Xml) (x : Xml) : Xml :=
  let 'XElem t a s c := x in XElem t a s (c ++ [child]).
Definition xinsert0 (child : Xml) (x : Xml) : Xml :=
  let 'XElem t a s c := x in XElem t a s (child :: c).

(** [nsdecls('w', 'r')] *)
Definition nsdecls_w_r : string :=
  "xmlns:w=" +:+ Str.dquote +:+ ns_w +:+ Str.dquote +:+
  " xmlns:r=" +:+ Str.dquote +:+ ns_r +:+ Str.dquote.

(** The markup fragment of line 284. *)
Definition hyperlink_xml (r_id text : string) : string :=
  "<w:hyperlink " +:+ nsdecls_w_r +:+
  " r:id=" +:+ Str.dquote +:+ r_id +:+ Str.dquote +:+
  "><w:r><w:rPr><w:color w:val=" +:+ Str.dquote +:+ "0563C1" +:+ Str.dquote
  +:+ "/><w:u w:val=" +:+ Str.dquote +:+ "single" +:+ Str.dquote +:+
  "/></w:rPr><w:t>" +:+ text +:+ "</w:t></w:r></w:hyperlink>".

(** *** The document library

    The two calls of python-docx that the embedding routine expects to
    fail: [part.relate_to(url, <hyperlink type>, is_external=True)], which
    returns a relationship id and changes the part, and
    [oxml_parser.parse_xml(markup)]. [None] stands for a raised
    exception. The [import] statements of the routine are not modelled, and
    the run and element builders ([add_run], [makeelement], [set],
    [append]) always return. *)
Class Library (Part : Type) := {
  relate_to : Part → string → option (string * Part);
  parse_xml : string → option Xml;
}.

(** *** State and exceptions *)

(** The document: its paragraphs in order, its part, and the log of the
    targets passed to [relate_to] so far. A paragraph object is its
    position in [body]. *)
Record Doc (Part : Type) := {
  body : list Paragraph;
  part : Part;
  relate_log : list string;
}.
Global Arguments body {Part} d.
Global Arguments part {Part} d.
Global Arguments relate_log {Part} d.

Inductive outcome (A : Type) := Returned (a : A) | Raised.
Global Arguments Returned {A} a.
Global Arguments Raised {A}.

(** A computation on the document: a result or an exception, and the
    document as the computation left it. *)
Definition M (Part A : Type) : Type := Doc Part → outcome A * Doc Part.

Section Monad.
Context {Part : Type}.

Definition ret {A} (a : A) : M Part A := λ d, (Returned a, d).

Definition bind {A B} (m : M Part A) (k : A → M Part B) : M Part B :=
  λ d, match m d with
       | (Returned a, d') => k a d'
       | (Raised, d') => (Raised, d')
       end.

(** [try: m  except: handler]; the handler starts from the document as
    the failed attempt left it. *)
Definition try_except {A} (m handler : M Part A) : M Part A :=
  λ d, match m d with
       | (Returned a, d') => (Returned a, d')
       | (Raised, d') => handler d'
       end.
End Monad.

Declare Scope docx_scope.
Delimit Scope docx_scope with docx.
Notation "x <- m ;; k" := (bind m (λ x, k))
  (at level 100, m at next level, right associativity) : docx_scope.
Notation "m ;;; k" := (bind m (λ _, k))
  (at level 100, right associativity) : docx_scope.
Local Open Scope docx_scope.

Section Assembler.
Context {Part : Type} {lib : Library Part}.

(** [doc.add_paragraph()], [doc.add_heading(..)], [doc.add_page_break()]:
    append a paragraph and return it. *)
Definition add_paragraph (p : Paragraph) : M Part nat :=
  λ d, (Returned (length (body d)),
        {| body := body d ++ [p]; part := part d;
           relate_log := relate_log d |}).

(** A change to the paragraph object [p]. The assembler only changes
    paragraphs that it has added; a position outside the document changes
    nothing. *)
Definition update (p : nat) (f : Paragraph → Paragraph) : M Part unit :=
  λ d, (Returned tt,
        {| body := alter f p (body d); part := part d;
           relate_log := relate_log d |}).

(** [paragraph.add_run(..)], with the formatting set on the new run right
    after. *)
Definition add_run (p : nat) (r : Run) : M Part unit :=
  update p (append_inline (IRun r)).

(** [paragraph._element.append(element)] *)
Definition append_element (p : nat) (x : Xml) : M Part unit :=
  update p (append_inline (IElement x)).

(** [paragraph.part.relate_to(url, .., is_external=True)] *)
Definition relate (url : string) : M Part string :=
  λ d, let log := relate_log d ++ [url] in
       match relate_to (part d) url with
       | Some (r_id, part') =>
           (Returned r_id,
            {| body := body d; part := part'; relate_log := log |})
       | None =>
           (Raised, {| body := body d; part := part d; relate_log := log |})
       end.

Definition parse (markup : string) : M Part Xml :=
  λ d, match parse_xml markup with
       | Some x => (Returned x, d)
       | None => (Raised, d)
       end.

(** *** [_add_hyperlink] (lines 268-342) *)

(** Lines 272-273: [not url or not url.startswith(('http://', 'https://'))] *)
Definition not_eligible (url : string) : bool :=
  negb (Str.truthy url)
  || negb (Str.startswith "http://" url || Str.startswith "https://" url).

(** Lines 279-289. *)
Definition tier_one (paragraph : nat) (url text : string) : M Part Inline :=
  r_id <- relate url ;;
  hyperlink_element <- parse (hyperlink_xml r_id text) ;;
  append_element paragraph hyperlink_element ;;;
  ret (IElement hyperlink_element).

(** The element built at lines 303-324. *)
Definition built_hyperlink (r_id text : string) : Xml :=
  let hyperlink := xset (qn_r "id") r_id (makeelement (qn_w "hyperlink")) in
  let new_run := makeelement (qn_w "r") in
  let text_elem := xset_text text (makeelement (qn_w "t")) in
  let new_run := xappend text_elem new_run in
  let rPr := makeelement (qn_w "rPr") in
  let color := xset (qn_w "val") "0563C1" (makeelement (qn_w "color")) in
  let underline := xset (qn_w "val") "single" (makeelement (qn_w "u")) in
  let rPr := xappend color rPr in
  let rPr := xappend underline rPr in
  let new_run := xinsert0 rPr new_run in
  xappend new_run hyperlink.

(** Lines 295-327. *)
Definition tier_two (paragraph : nat) (url text : string) : M Part Inline :=
  add_run paragraph (new_run "") ;;;
  r_id <- relate url ;;
  let hyperlink := built_hyperlink r_id text in
  append_element paragraph hyperlink ;;;
  ret (IElement hyperlink).

(** [url_run.font.size * 0.9 if url_run.font.size else None], sizes in
    whole EMU. *)
Definition reduced_size (size : option N) : option N :=
  match size with
  | Some sz => if (sz =? 0)%N then None else Some (sz * 9 / 10)%N
  | None => None
  end.

(** Lines 331-342. *)
Definition tier_three (paragraph : nat) (url text : string) : M Part Inline :=
  let run := set_underline (set_color hyperlink_blue (new_run text)) in
  add_run paragraph run ;;;
  add_run paragraph (new_run (Str.newline +:+ "    ")) ;;;
  let url_run := set_underline (set_color hyperlink_blue (new_run url)) in
  let url_run := set_size (reduced_size (font_size url_run)) url_run in
  add_run paragraph url_run ;;;
  ret (IRun run).

Definition _add_hyperlink (paragraph : nat) (url text : string)
  : M Part Inline :=
  try_except
    (if not_eligible url
     then add_run paragraph (new_run text) ;;; ret (IRun (new_run text))
     else tier_one paragraph url text)
    (try_except
       (tier_two paragraph url text)
       (tier_three paragraph url text)).

(** *** [create_document] (lines 176-266) *)

(** Truth value of a list: [bool(xs)]. *)
Definition nonempty {A} (xs : list A) : bool :=
  match xs with [] => false | _ :: _ => true end.

(** [for x in xs: body(x)] *)
Definition for_each {A} (xs : list A) (body : A → M Part unit)
  : M Part unit :=
  (fix loop (xs : list A) : M Part unit :=
     match xs with
     | [] => ret tt
     | x :: rest => body x ;;; loop rest
     end) xs.

(** [for i, x in enumerate(xs, i): body(i, x)] *)
Fixpoint for_enumerate {A} (i : nat) (xs : list A)
    (body : nat → A → M Part unit) : M Part unit :=
  match xs with
  | [] => ret tt
  | x :: rest => body i x ;;; for_enumerate (S i) rest body
  end.

(** [node.get('url')] as a condition: the url when it is present and not
    empty. *)
Definition get_url (url : option string) : option string :=
  match url with
  | Some u => if Str.truthy u then Some u else None
  | None => None
  end.

(** Lines 232-240. *)
Fixpoint write_node (node : TocNode) (level : nat) : M Part unit :=
  match node with
  | LinkExtractor.Node text url children =>
      p <- add_paragraph empty_paragraph ;;
      update p (indent (Inches_quarter level)) ;;;
      match get_url url with
      | Some u => _add_hyperlink p u text ;;; ret tt
      | None => add_run p (set_bold (new_run text))
      end ;;;
      for_each children (λ child, write_node child (S level))
  end.

(** Lines 245-249, one iteration. *)
Definition write_link (j : nat) (link : Link) : M Part unit :=
  link_para <- add_paragraph empty_paragraph ;;
  add_run link_para (set_bold (new_run (pretty j +:+ ". "))) ;;;
  _add_hyperlink link_para (LinkExtractor.url link) (LinkExtractor.text link) ;;;
  add_paragraph empty_paragraph ;;;
  ret tt.

(** Lines 230-249. *)
Definition write_body (links : list Link) (toc_tree : list TocNode)
  : M Part unit :=
  if nonempty toc_tree then for_each toc_tree (λ top, write_node top 0)
  else if nonempty links then for_enumerate 1 links write_link
  else ret tt.

(** Lines 210-228: heading, source line, link count, spacing. *)
Definition write_header (i : nat) (url_data : UrlData) : M Part unit :=
  add_paragraph (heading (pretty i +:+ ". " +:+ page_title url_data) 1) ;;;
  source_para <- add_paragraph empty_paragraph ;;
  add_run source_para (set_bold (new_run "Source: ")) ;;;
  _add_hyperlink source_para (source_url url_data) (source_url url_data) ;;;
  count_para <- add_paragraph empty_paragraph ;;
  add_run count_para (set_bold (new_run "Links Found: ")) ;;;
  add_run count_para (new_run (pretty (length (links url_data)))) ;;;
  add_paragraph empty_paragraph ;;;
  ret tt.

(** Lines 252-255. *)
Definition write_separator (i total : nat) : M Part unit :=
  if bool_decide (i < total) then
    separator_para <-
      add_paragraph (append_inline (IRun (new_run (Str.repeat "=" 80)))
                                   empty_paragraph) ;;
    update separator_para center ;;;
    add_paragraph empty_paragraph ;;;
    ret tt
  else ret tt.

(** One iteration of the loop of line 209; [total] is
    [len(extracted_data)]. *)
Definition write_source (total i : nat) (url_data : UrlData) : M Part unit :=
  write_header i url_data ;;;
  write_body (links url_data) (toc_tree url_data) ;;;
  write_separator i total.

(** [sum(len(data['links']) for data in extracted_data)] *)
Definition total_links (extracted_data : list UrlData) : nat :=
  sum_list (map (λ data, length (links data)) extracted_data).

(** Lines 196-204. *)
Definition write_summary (extracted_data : list UrlData) : M Part unit :=
  add_paragraph (heading "Summary" 1) ;;;
  let total_links := total_links extracted_data in
  let total_sources := length extracted_data in
  summary_para <- add_paragraph empty_paragraph ;;
  add_run summary_para (set_bold (new_run "Total Sources Processed: ")) ;;;
  add_run summary_para (new_run (pretty total_sources +:+ Str.newline)) ;;;
  add_run summary_para (set_bold (new_run "Total Links Extracted: ")) ;;;
  add_run summary_para (new_run (pretty total_links)).

(** Lines 183-193; [now] is
    [datetime.now().strftime('%B %d, %Y at %I:%M %p')]. *)
Definition write_front (title now : string) : M Part unit :=
  title_paragraph <- add_paragraph (heading title 0) ;;
  update title_paragraph center ;;;
  date_paragraph <- add_paragraph empty_paragraph ;;
  update date_paragraph center ;;;
  add_run date_paragraph (set_italic (new_run ("Generated on " +:+ now))) ;;;
  add_paragraph empty_paragraph ;;;
  ret tt.

(** The body of the [try] block of [create_document]. *)
Definition assemble (title now : string) (extracted_data : list UrlData)
  : M Part unit :=
  write_front title now ;;;
  write_summary extracted_data ;;;
  add_paragraph page_break ;;;
  for_enumerate 1 extracted_data (write_source (length extracted_data)).

(** [create_document(title, extracted_data)] on the blank part of
    [Document()]: the document that is saved to the buffer, [None] when the
    [except] clause is taken. *)
Definition create_document (blank : Part) (title now : string)
    (extracted_data : list UrlData) : option (Doc Part) :=
  match assemble title now extracted_data
          {| body := []; part := blank; relate_log := [] |} with
  | (Returned _, doc) => Some doc
  | (Raised, _) => None
  end.

End Assembler.

End DocxManager.

(** ** The batch loop of [main] (lines 410-426) *)

Module Main.

Import LinkExtractor.

(** The dictionary appended to [st.session_state.extracted_data]. *)
Definition entry (url : string) (extracted_data : Extraction)
  : DocxManager.UrlData :=
  {| DocxManager.source_url := url;
     DocxManager.page_title := page_title extracted_data;
     DocxManager.links := links extracted_data;
     DocxManager.toc_tree := toc_tree extracted_data |}.

(** [for i, url in enumerate(urls)], from iteration [i] on; [drivers i] is
    the driver that [_get_selenium_driver] hands out in iteration [i], and
    [extracted_data] the list accumulated so far. *)
Fixpoint process (drivers : nat → option Driver) (i : nat)
    (urls : list string) (extracted_data : list DocxManager.UrlData)
  : list DocxManager.UrlData :=
  match urls with
  | [] => extracted_data
  | url :: rest =>
      let result := extract_links_from_url (drivers i) url in
      process drivers (S i) rest (extracted_data ++ [entry url result])
  end.

Definition extract_all (drivers : nat → option Driver) (urls : list string)
  : list DocxManager.UrlData :=
  process drivers 0 urls [].

End Main.

(** ** Notions used in the statements *)

Module Spec.

Import LinkExtractor.

(** [us.index(u)], [None] when [u] does not occur: the position at which a
    url is first seen. *)
Fixpoint first_index (u : string) (us : list string) : option nat :=
  match us with
  | [] => None
  | x :: rest => if decide (x = u) then Some 0 else S <$> first_index u rest
  end.

(** The de-duplication as the specification words it: a link is kept exactly
    when no link before it has the same url. *)
Definition first_occurrences (links : list Link) : list Link :=
  concat (imap (λ i link,
                  if decide (url link ∈ url <$> take i links) then []
                  else [link])
               links).

(** Two urls come in the same relative order in [ins] and in [outs], each
    taken where it is first seen. *)
Definition same_order (ins outs : list string) (u v : string) : Prop :=
  ∀ i j, first_index u ins = Some i → first_index v ins = Some j →
    ∃ i' j', first_index u outs = Some i' ∧ first_index v outs = Some j'
             ∧ (i < j ↔ i' < j').

(** Nesting depth and number of nodes of a serialized tree. *)
Fixpoint toc_measure (combine : list nat → nat) (n : TocNode) : nat :=
  match n with Node _ _ cs => S (combine (map (toc_measure combine) cs)) end.

Definition toc_size : TocNode → nat := toc_measure sum_list.

(** Number of elements of a page fragment. *)
Fixpoint esize (e : Element) : nat :=
  match e with Elem _ _ _ kids => S (sum_list (map esize kids)) end.

(** Nesting depth of list items below an item of the markup, and their
    number, along [:scope > ul > li]. *)
Fixpoint li_measure (combine : list nat → nat) (fuel : nat) (node : Element)
  : nat :=
  match fuel with
  | O => 0
  | S fuel' =>
      S (combine (map (li_measure combine fuel')
                      (child_lis (children_of node))))
  end.




End Spec.

(** ** The layout of the assembled document, as a function

    What the assembler is to leave in the document, written without handles
    and without exceptions: lists of paragraphs, computed from the part and
    the log of [relate_to] calls (threaded as a pair) and the data. *)

Module Layout.

Import DocxManager.

Section Layout.
Context {Part : Type} {lib : Library Part}.

(** The state of the package: the part and the log of [relate_to] calls. *)
Definition package (d : Doc Part) : Part * list string :=
  (part d, relate_log d).

Definition document (paragraphs : list Paragraph) (pk : Part * list string)
  : Doc Part :=
  {| body := paragraphs; part := pk.1; relate_log := pk.2 |}.

Definition paragraph_of (inlines : list Inline) : Paragraph :=
  {| heading_level := None; centered := false; left_indent := None;
     content := inlines |}.

Definition extend_paragraph (inlines : list Inline) (p : Paragraph)
  : Paragraph :=
  {| heading_level := heading_level p; centered := centered p;
     left_indent := left_indent p; content := content p ++ inlines |}.

(** The three runs of the last tier: the text and the url in hyperlink
    blue and underlined, a line break and indentation between them. *)
Definition readable_link (url text : string) : list Inline :=
  [ IRun {| run_text := text; bold := false; italic := false;
            underline := true; color_rgb := Some (5, 99, 193)%N;
            font_size := None |};
    IRun (new_run (Str.newline +:+ "    "));
    IRun {| run_text := url; bold := false; italic := false;
            underline := true; color_rgb := Some (5, 99, 193)%N;
            font_size := None |} ].

(** What the second tier, and the third after it, add to the paragraph. *)
Definition embed_rebuilt (pk : Part * list string) (url text : string)
  : list Inline * (Part * list string) :=
  match relate_to pk.1 url with
  | Some (r_id, part') =>
      ([IRun (new_run ""); IElement (built_hyperlink r_id text)],
       (part', pk.2 ++ [url]))
  | None =>
      (IRun (new_run "") :: readable_link url text, (pk.1, pk.2 ++ [url]))
  end.

(** What a hyperlink adds to its paragraph, and the package after it. *)
Definition embed (pk : Part * list string) (url text : string)
  : list Inline * (Part * list string) :=
  if not_eligible url then ([IRun (new_run text)], pk)
  else
    match relate_to pk.1 url with
    | Some (r_id, part') =>
        match parse_xml (hyperlink_xml r_id text) with
        | Some element => ([IElement element], (part', pk.2 ++ [url]))
        | None => embed_rebuilt (part', pk.2 ++ [url]) url text
        end
    | None => embed_rebuilt (pk.1, pk.2 ++ [url]) url text
    end.

(** Lay out the entries one after the other. *)
Fixpoint lay_out {X} (f : Part * list string → X →
                          list Paragraph * (Part * list string))
    (pk : Part * list string) (xs : list X)
  : list Paragraph * (Part * list string) :=
  match xs with
  | [] => ([], pk)
  | x :: rest =>
      let '(ps, pk1) := f pk x in
      let '(qs, pk2) := lay_out f pk1 rest in
      (ps ++ qs, pk2)
  end.

(** The nodes of a tree in document order, each with its depth. *)
Fixpoint outline (level : nat) (node : TocNode) : list (nat * TocNode) :=
  match node with
  | LinkExtractor.Node _ _ children =>
      (level, node) :: flat_map (outline (S level)) children
  end.

(** One paragraph per node, indented by a quarter inch per level: a
    hyperlink for a node with a (non-empty) url, its text in bold for a node
    without. *)
Definition toc_paragraph (pk : Part * list string) (entry : nat * TocNode)
  : list Paragraph * (Part * list string) :=
  let '(level, node) := entry in
  match get_url (LinkExtractor.node_url node) with
  | Some u =>
      let '(inlines, pk') := embed pk u (LinkExtractor.node_text node) in
      ([indent (228600 * N.of_nat level)%N (paragraph_of inlines)], pk')
  | None =>
      ([indent (228600 * N.of_nat level)%N
          (paragraph_of
             [IRun (set_bold (new_run (LinkExtractor.node_text node)))])],
       pk)
  end.

(** The numbered line of a link, and the empty paragraph after it. *)
Definition numbered_link (pk : Part * list string) (entry : nat * Link)
  : list Paragraph * (Part * list string) :=
  let '(j, link) := entry in
  let '(inlines, pk') :=
    embed pk (LinkExtractor.url link) (LinkExtractor.text link) in
  ([paragraph_of (IRun (set_bold (new_run (pretty j +:+ ". "))) :: inlines);
    empty_paragraph], pk').

(** [enumerate(xs, start)] *)
Definition enumerate {X} (start : nat) (xs : list X) : list (nat * X) :=
  zip (seq start (length xs)) xs.

(** The body of a section, by the preference rule. *)
Definition body_layout (pk : Part * list string) (links : list Link)
    (toc_tree : list TocNode) : list Paragraph * (Part * list string) :=
  match toc_tree, links with
  | _ :: _, _ => lay_out toc_paragraph pk (flat_map (outline 0) toc_tree)
  | [], _ :: _ => lay_out numbered_link pk (enumerate 1 links)
  | [], [] => ([], pk)
  end.

(** Heading, source line, link count and spacing of a section. *)
Definition header_layout (pk : Part * list string) (i : nat)
    (url_data : UrlData) : list Paragraph * (Part * list string) :=
  let '(inlines, pk') :=
    embed pk (source_url url_data) (source_url url_data) in
  ([heading (pretty i +:+ ". " +:+ page_title url_data) 1;
    paragraph_of (IRun (set_bold (new_run "Source: ")) :: inlines);
    paragraph_of [IRun (set_bold (new_run "Links Found: "));
                  IRun (new_run (pretty (length (links url_data))))];
    empty_paragraph], pk').

Definition separator_layout (i total : nat) : list Paragraph :=
  if bool_decide (i < total)
  then [center (paragraph_of [IRun (new_run (Str.repeat "=" 80))]);
        empty_paragraph]
  else [].

Definition source_layout (total : nat) (pk : Part * list string)
    (entry : nat * UrlData) : list Paragraph * (Part * list string) :=
  let '(i, url_data) := entry in
  let '(hs, pk1) := header_layout pk i url_data in
  let '(bs, pk2) := body_layout pk1 (links url_data) (toc_tree url_data) in
  (hs ++ bs ++ separator_layout i total, pk2).

(** The summary paragraph for the two totals. *)
Definition summary_paragraph (sources links : nat) : Paragraph :=
  paragraph_of
    [IRun (set_bold (new_run "Total Sources Processed: "));
     IRun (new_run (pretty sources +:+ Str.newline));
     IRun (set_bold (new_run "Total Links Extracted: "));
     IRun (new_run (pretty links))].

(** Title, date line, spacing, summary heading and summary, page break. *)
Definition front_layout (title now : string) (extracted_data : list UrlData)
  : list Paragraph :=
  [center (heading title 0);
   center (paragraph_of [IRun (set_italic (new_run ("Generated on " +:+ now)))]);
   empty_paragraph;
   heading "Summary" 1;
   summary_paragraph (length extracted_data) (total_links extracted_data);
   page_break].

Definition document_layout (blank : Part) (title now : string)
    (extracted_data : list UrlData) : list Paragraph * (Part * list string) :=
  let '(sections, pk) :=
    lay_out (source_layout (length extracted_data)) (blank, [])
            (enumerate 1 extracted_data) in
  (front_layout title now extracted_data ++ sections, pk).

(** A computation lays out [layout] when, on every document, it returns
    after appending the paragraphs of the layout, and leaves the package of
    the layout. *)
Definition lays_out (m : M Part unit)
    (layout : Part * list string → list Paragraph * (Part * list string))
  : Prop :=
  ∀ l pk, m (document l pk)
          = (Returned tt, document (l ++ (layout pk).1) (layout pk).2).

End Layout.

End Layout.

(** ** Sample document libraries *)

Module Samples.

Import DocxManager.

(** A library whose relationship registration rejects every target and
    whose parser rejects every fragment. *)
Definition rejecting : Library unit :=
  {| relate_to := λ _ _, None; parse_xml := λ _, None |}.

(** A library that numbers the relationships of a part, and whose parser
    rejects every fragment. *)
Definition numbering : Library nat :=
  {| relate_to := λ n _, Some ("rId" +:+ pretty (S n), S n);
     parse_xml := λ _, None |}.

End Samples.

(** ** The anchor crawler ([JS_CRAWL_ANCHORS], lines 70-90) *)

Module Crawler.

Import LinkExtractor.





End Crawler.

(** ** The url input of [main] (lines 404-436) *)

Module UrlInput.

(** [s.split(sep)] for a separator of one character. *)
Fixpoint split (sep : ascii) (s : string) : list string :=
  match s with
  | EmptyString => [EmptyString]
  | String c rest =>
      if bool_decide (c = sep) then EmptyString :: split sep rest
      else match split sep rest with
           | first :: others => String c first :: others
           | [] => [String c EmptyString]
           end
  end.

(** The newline character. *)
Definition LF : ascii := "010"%char.

(** [[url.strip() for url in url_input.split('\n') if url.strip()]] *)
Definition parse_urls (url_input : string) : list string :=
  omap (λ url, if Str.truthy (Str.strip url) then Some (Str.strip url)
               else None)
       (split LF url_input).



End UrlInput.

(** ** Shapes of strings, for the statements *)

Module Shape.

(** Every character of [s] satisfies [p]. *)
Fixpoint all_chars (p : ascii → bool) (s : string) : bool :=
  match s with
  | EmptyString => true
  | String c rest => p c && all_chars p rest
  end.

(** [s] does not begin with a character satisfying [sp]. *)
Definition clean_start (sp : ascii → bool) (s : string) : Prop :=
  match s with
  | EmptyString => True
  | String c _ => sp c = false
  end.

(** [s] neither begins nor ends with a character satisfying [sp]. *)
Definition clean_ends (sp : ascii → bool) (s : string) : Prop :=
  clean_start sp s ∧ clean_start sp (String.rev s).

End Shape.

(** ** A library that accepts, and the size of a section *)

Module MoreSamples.

Import DocxManager.

(** A library that numbers the relationships of a part, and whose parser
    accepts every fragment (the element holds the markup as its text). *)
Definition accepting : Library nat :=
  {| relate_to := λ n _, Some ("rId" +:+ pretty (S n), S n);
     parse_xml := λ markup, Some (XElem "fragment" [] markup []) |}.

End MoreSamples.

Module Sizes.

Import DocxManager.

(** The number of paragraphs of the body of a section: one per node of the
    tree when there is a tree, else two per link. *)
Definition body_size (url_data : UrlData) : nat :=
  match toc_tree url_data with
  | _ :: _ => sum_list (Spec.toc_size <$> toc_tree url_data)
  | [] => 2 * length (links url_data)
  end.

(** A run carries no explicit font size. *)
Definition unsized (i : Inline) : Prop :=
  match i with
  | IRun r => font_size r = None
  | _ => True
  end.

(** A paragraph as the bodies of the sections hold them: no heading, not
    centred, no sized run. *)
Definition plain (p : Paragraph) : Prop :=
  heading_level p = None ∧ centered p = false ∧ Forall unsized (content p).

(** The separator paragraph. *)
Definition separator : Paragraph :=
  Layout.paragraph_of [IRun (new_run (Str.repeat "=" 80))].

End Sizes.

(** ** The name of the downloaded file (lines 480-482) *)

Module Download.

(** [s.replace(old, new)] for strings of one character. *)
Fixpoint replace_char (old new : ascii) (s : string) : string :=
  match s with
  | EmptyString => EmptyString
  | String c rest =>
      String (if bool_decide (c = old) then new else c)
             (replace_char old new rest)
  end.

(** [f"{doc_title.replace(' ', '_')}_{timestamp}.docx"]; [timestamp] is
    [datetime.now().strftime("%Y%m%d_%H%M%S")]. *)
Definition filename (doc_title timestamp : string) : string :=
  replace_char " " "_" doc_title +:+ "_" +:+ timestamp +:+ ".docx".

(** The character is not a space. *)
Definition not_space (c : ascii) : bool := negb (bool_decide (c = " "%char)).

End Download.

(** * Properties *)

(** ** Strings *)

Module StrFacts.

Import Str.

Lemma truthy_true s : truthy s = true ↔ s ≠ "".
Proof. destruct s; simpl; split; congruence. Qed.

Lemma app_cons c a b : String c a +:+ b = String c (a +:+ b).
Proof. reflexivity. Qed.

Lemma prefix_app p s : String.prefix p s = true ↔ ∃ b, s = p +:+ b.
Proof.
  revert s; induction p as [|c p IH]; intros s; simpl.
  - split; [intros _; by exists s | by destruct s].
  - destruct s as [|d s]; simpl.
    { split; [done|]. intros [b Hb]. by rewrite app_cons in Hb. }
    destruct (ascii_dec c d) as [->|Hne].
    + rewrite IH. split; intros [b Hb]; exists b.
      * by rewrite app_cons, Hb.
      * rewrite app_cons in Hb. by injection Hb.
    + split; [done|]. intros [b Hb]. rewrite app_cons in Hb.
      injection Hb as Hcd _. by destruct Hne.
Qed.

Lemma contains_nil needle : contains needle "" = String.prefix needle "" || false.
Proof. reflexivity. Qed.

Lemma contains_cons needle c hay :
  contains needle (String c hay)
  = String.prefix needle (String c hay) || contains needle hay.
Proof. reflexivity. Qed.

(** [needle in hay] holds exactly when [hay] splits around [needle]. *)
Lemma contains_spec needle hay :
  contains needle hay = true ↔ ∃ a b, hay = a +:+ needle +:+ b.
Proof.
  induction hay as [|c hay IH].
  - rewrite contains_nil, orb_false_r, prefix_app. split.
    + intros [b Hb]. by exists "", b.
    + intros [[|??] [b Hb]]; [by exists b | by rewrite app_cons in Hb].
  - rewrite contains_cons, orb_true_iff, prefix_app, IH. split.
    + intros [[b Hb]|(a & b & Hab)].
      * by exists "", b.
      * exists (String c a), b. by rewrite app_cons, Hab.
    + intros ([|d a] & b & Hab).
      * left. by exists b.
      * right. rewrite app_cons in Hab. injection Hab as _ Hab. by exists a, b.
Qed.

End StrFacts.

(** ** The classifier *)

Module ClassifierFacts.

Import LinkExtractor Spec.

Lemma first_index_lt u us i : first_index u us = Some i → i < length us.
Proof.
  revert i; induction us as [|x us IH]; intros i; simpl; [done|].
  case_decide; [intros [= <-]; lia|].
  destruct (first_index u us) as [k|]; simpl; [|done].
  intros [= <-]. specialize (IH k eq_refl). lia.
Qed.

Lemma first_index_None u us : first_index u us = None ↔ u ∉ us.
Proof.
  induction us as [|x us IH]; simpl.
  - split; [intros _; apply not_elem_of_nil | done].
  - case_decide as Hx.
    + split; [done|]. intros Hn. destruct Hn. subst. apply list_elem_of_here.
    + rewrite not_elem_of_cons. destruct (first_index u us); simpl.
      * split; [done|]. intros [_ Hn]. by apply IH in Hn.
      * split; [|done]. intros _. split; [congruence | by apply IH].
Qed.

Lemma first_index_app_l u us vs i :
  first_index u us = Some i → first_index u (us ++ vs) = Some i.
Proof.
  revert i; induction us as [|x us IH]; intros i; simpl; [done|].
  case_decide; [done|].
  destruct (first_index u us) as [k|]; simpl; [|done].
  intros [= <-]. by rewrite (IH k eq_refl).
Qed.

Lemma first_index_app_r u us vs :
  u ∉ us → first_index u (us ++ vs) = (λ i, length us + i) <$> first_index u vs.
Proof.
  induction us as [|x us IH]; simpl.
  - intros _. by destruct (first_index u vs).
  - rewrite not_elem_of_cons. intros [Hne Hn].
    case_decide; [congruence|]. rewrite (IH Hn).
    by destruct (first_index u vs).
Qed.

Lemma first_index_snoc_new u us :
  u ∉ us → first_index u (us ++ [u]) = Some (length us).
Proof.
  intros Hn. rewrite first_index_app_r by done. simpl.
  case_decide; [|done]. simpl. f_equal. lia.
Qed.

Lemma first_index_snoc_inv u x us i :
  first_index u (us ++ [x]) = Some i →
  first_index u us = Some i ∨ ((u ∉ us) ∧ x = u ∧ i = length us).
Proof.
  intros Hi. destruct (first_index u us) as [k|] eqn:Hk.
  - left. by rewrite (first_index_app_l _ _ [x] _ Hk) in Hi.
  - right. apply first_index_None in Hk.
    rewrite first_index_app_r in Hi by done. simpl in Hi.
    case_decide; [|done]. simpl in Hi. injection Hi as <-.
    repeat split; [done..|lia].
Qed.

(** *** The loop state of the de-duplication *)

Lemma dedupe_seen links :
  (foldl dedupe_step (∅, []) links).1 = list_to_set (url <$> links).
Proof.
  induction links as [|x links IH] using rev_ind; [done|].
  rewrite foldl_snoc, fmap_app, list_to_set_app_L.
  destruct (foldl dedupe_step (∅, []) links) as [seen_urls unique_links].
  simpl in *. subst seen_urls. rewrite union_empty_r_L.
  case_decide as Hin; simpl.
  - rewrite (comm_L (∪)). symmetry. apply subseteq_union_1_L.
    by apply singleton_subseteq_l.
  - apply (comm_L (∪)).
Qed.

Lemma dedupe_snoc links x :
  dedupe (links ++ [x])
  = dedupe links ++ (if decide (url x ∈ url <$> links) then [] else [x]).
Proof.
  unfold dedupe. rewrite foldl_snoc.
  pose proof (dedupe_seen links) as Hseen.
  destruct (foldl dedupe_step (∅, []) links) as [seen_urls unique_links].
  simpl in *. subst seen_urls.
  case_decide as Hin; rewrite elem_of_list_to_set in Hin; case_decide;
    try done; simpl. by rewrite app_nil_r.
Qed.

Lemma first_occurrences_snoc links x :
  first_occurrences (links ++ [x])
  = first_occurrences links
    ++ (if decide (url x ∈ url <$> links) then [] else [x]).
Proof.
  unfold first_occurrences. rewrite imap_app, concat_app. f_equal.
  - f_equal. apply imap_ext. intros i y Hy. simpl.
    rewrite take_app_le; [done|].
    apply lookup_lt_Some in Hy. lia.
  - simpl. rewrite Nat.add_0_r, take_app_length, app_nil_r. done.
Qed.

Lemma dedupe_urls links u :
  u ∈ url <$> dedupe links ↔ u ∈ url <$> links.
Proof.
  induction links as [|x links IH] using rev_ind; [done|].
  rewrite dedupe_snoc, !fmap_app, !elem_of_app, IH.
  case_decide as Hin; simpl; [|done].
  rewrite list_elem_of_singleton. split.
  - intros [?|Hnil]; [by left | by apply elem_of_nil in Hnil].
  - intros [?| ->]; by left.
Qed.

Lemma dedupe_NoDup links : NoDup (url <$> dedupe links).
Proof.
  induction links as [|x links IH] using rev_ind; [constructor|].
  rewrite dedupe_snoc. case_decide as Hin; [by rewrite app_nil_r|].
  rewrite fmap_app. apply NoDup_app. split; [done|]. split.
  - intros u Hu Hx. simpl in Hx. apply list_elem_of_singleton in Hx as ->.
    by apply Hin, dedupe_urls.
  - simpl. apply NoDup_singleton.
Qed.

Lemma dedupe_sublist links : dedupe links `sublist_of` links.
Proof.
  induction links as [|x links IH] using rev_ind; [done|].
  rewrite dedupe_snoc. case_decide.
  - rewrite app_nil_r. by apply sublist_inserts_r.
  - by apply sublist_app.
Qed.

Lemma dedupe_same_order links u v :
  same_order (url <$> links) (url <$> dedupe links) u v.
Proof.
  induction links as [|x links IH] using rev_ind; [by intros ??|].
  intros i j. rewrite dedupe_snoc, fmap_app. simpl.
  case_decide as Hin.
  - rewrite app_nil_r. intros Hi Hj.
    apply first_index_snoc_inv in Hi as [Hi|(Hn & Hu & _)];
      [|by rewrite <-Hu in Hn].
    apply first_index_snoc_inv in Hj as [Hj|(Hn & Hv & _)];
      [|by rewrite <-Hv in Hn].
    by apply IH.
  - assert (url x ∉ url <$> dedupe links) as Hout by by rewrite dedupe_urls.
    set (outs := url <$> dedupe links) in *.
    assert (∀ w k, first_index w (url <$> links) = Some k →
              ∃ k', first_index w outs = Some k' ∧ k' < length outs) as Hold.
    { intros w k Hk. destruct (first_index w outs) as [k'|] eqn:Hk'.
      - exists k'. split; [done|]. by apply first_index_lt in Hk'.
      - apply first_index_None in Hk'. unfold outs in Hk'.
        rewrite dedupe_urls in Hk'. apply first_index_None in Hk'. congruence. }
    rewrite fmap_app. simpl. fold outs. intros Hi Hj.
    apply first_index_snoc_inv in Hi as [Hi|(Hnu & Hu & ->)];
      apply first_index_snoc_inv in Hj as [Hj|(Hnv & Hv & ->)].
    + destruct (IH i j Hi Hj) as (i' & j' & Hi' & Hj' & Hij).
      exists i', j'.
      by rewrite (first_index_app_l _ _ [url x] _ Hi'),
                 (first_index_app_l _ _ [url x] _ Hj').
    + destruct (Hold u i Hi) as (i' & Hi' & Hlt).
      exists i', (length outs).
      rewrite (first_index_app_l _ _ [url x] _ Hi'), <-Hv.
      rewrite first_index_snoc_new by done.
      apply first_index_lt in Hi. repeat split; lia || done.
    + destruct (Hold v j Hj) as (j' & Hj' & Hlt).
      exists (length outs), j'.
      rewrite (first_index_app_l _ _ [url x] _ Hj'), <-Hu.
      rewrite first_index_snoc_new by done.
      apply first_index_lt in Hj. repeat split; lia || done.
    + exists (length outs), (length outs). rewrite <-Hu at 1. rewrite <-Hv.
      rewrite first_index_snoc_new by done. repeat split; lia || done.
Qed.

(** *** The filter loop *)

Lemma filter_links_snoc raw item :
  filter_links (raw ++ [item]) = filter_step (filter_links raw) item.
Proof. unfold filter_links. by rewrite foldl_snoc. Qed.

Lemma filter_links_href_is_url raw :
  Forall (λ link, original_href link = url link) (filter_links raw).
Proof.
  induction raw as [|item raw IH] using rev_ind; [constructor|].
  rewrite filter_links_snoc. unfold filter_step.
  repeat case_match; try done.
  apply Forall_app. split; [done|]. by repeat constructor.
Qed.

Lemma classify_sublist raw_links :
  classify raw_links `sublist_of` filter_links raw_links.
Proof. apply dedupe_sublist. Qed.

(** C2, as amended. For every anchor sequence, the de-duplication step
    yields exactly the subsequence of the filtered links that keeps the first
    link of each distinct url and drops every later one; the urls of the
    output are pairwise distinct; and two urls stand in the output in the
    order in which they are first seen among the filtered links (the anchors
    that passed the relevance and noise filters). *)
Theorem classify_keeps_first_occurrences (raw_links : list Anchor) :
  classify raw_links = first_occurrences (filter_links raw_links)
  ∧ classify raw_links `sublist_of` filter_links raw_links
  ∧ NoDup (url <$> classify raw_links)
  ∧ ∀ u v, same_order (url <$> filter_links raw_links)
                      (url <$> classify raw_links) u v.
Proof.
  unfold classify. split; [|split; [|split]].
  - induction (filter_links raw_links) as [|x links IH] using rev_ind; [done|].
    by rewrite dedupe_snoc, first_occurrences_snoc, IH.
  - apply dedupe_sublist.
  - apply dedupe_NoDup.
  - intros u v. apply dedupe_same_order.
Qed.

(** C2, counterexample. The url [.../a] is first seen before [.../b] among
    the raw anchors, but its first anchor is a navigation link that the
    noise filter drops: in the output [.../b] comes first. *)
Lemma raw_anchor_order_not_kept :
  let raw_links :=
    [ {| a_href := "https://x/release-notes/a"; a_text := "Home" |};
      {| a_href := "https://x/release-notes/b"; a_text := "Feature B" |};
      {| a_href := "https://x/release-notes/a"; a_text := "Feature A" |} ] in
  classify raw_links
  = [ {| text := "Feature B"; url := "https://x/release-notes/b";
         original_href := "https://x/release-notes/b" |};
      {| text := "Feature A"; url := "https://x/release-notes/a";
         original_href := "https://x/release-notes/a" |} ]
  ∧ ¬ ∀ u v, same_order (a_href <$> raw_links) (url <$> classify raw_links) u v.
Proof.
  split; [by vm_compute|].
  intros H.
  destruct (H "https://x/release-notes/a" "https://x/release-notes/b" 0 1)
    as (i' & j' & Hi & Hj & Hij); [by vm_compute..|].
  vm_compute in Hi, Hj. injection Hi as <-. injection Hj as <-. lia.
Qed.

(** C7. Scenario A: of the three anchors, the login anchor is filtered out
    and the second anchor of [.../a] is a duplicate; one link remains. *)
Theorem scenario_A :
  classify
    [ {| a_href := "https://x/release-notes/a"; a_text := "Feature A" |};
      {| a_href := "https://x/login"; a_text := "Login" |};
      {| a_href := "https://x/release-notes/a"; a_text := "Feature A dup" |} ]
  = [ {| text := "Feature A"; url := "https://x/release-notes/a";
         original_href := "https://x/release-notes/a" |} ].
Proof. by vm_compute. Qed.


End ClassifierFacts.

(** ** The readiness wait, the serializer and the extraction *)

Module ExtractorFacts.

Import LinkExtractor Spec.

(** C8, as amended. The readiness predicate holds for a title exactly when
    the title is not empty and contains neither placeholder, ["Help And
    Training Community"] or ["Login"], as a substring. *)
Theorem title_ready_iff (title : string) :
  title_ready title = true
  ↔ title ≠ ""
    ∧ ¬ (∃ a b, title = a +:+ "Help And Training Community" +:+ b)
    ∧ ¬ (∃ a b, title = a +:+ "Login" +:+ b).
Proof.
  unfold title_ready.
  rewrite !andb_true_iff, !negb_true_iff, StrFacts.truthy_true.
  rewrite <-!not_true_iff_false, !StrFacts.contains_spec. tauto.
Qed.

(** C8, counterexample. A title that is not empty and equals neither
    placeholder, but contains ["Login"], is not ready. *)
Lemma title_with_placeholder_inside_not_ready :
  let title := "Login | Salesforce" in
  ¬ (title_ready title = true
     ↔ title ≠ "" ∧ title ≠ "Help And Training Community" ∧ title ≠ "Login").
Proof. simpl. intros [_ H]. by discriminate H. Qed.

(** *** The serializer *)


Lemma le_sum_list {X} (f : X → nat) (x : X) (l : list X) :
  x ∈ l → f x ≤ sum_list (map f l).
Proof.
  induction 1 as [|? ? ? _ IH]; simpl; [lia|]. lia.
Qed.

Lemma esize_child_lis node e :
  e ∈ child_lis (children_of node) → esize e < esize node.
Proof.
  destruct node as [t h x kids]. unfold child_lis. simpl.
  rewrite list_elem_of_In, in_flat_map.
  intros (ul & Hul & He). apply filter_In in Hul as [Hul _].
  apply filter_In in He as [He _].
  apply list_elem_of_In in Hul, He.
  apply (le_sum_list esize) in Hul. destruct ul as [? ? ? items]. simpl in *.
  apply (le_sum_list esize) in He. lia.
Qed.

Lemma li_measure_fuel combine fuel1 fuel2 node :
  esize node ≤ fuel1 → esize node ≤ fuel2 →
  li_measure combine fuel1 node = li_measure combine fuel2 node.
Proof.
  revert fuel2 node. induction fuel1 as [|fuel1 IH]; intros fuel2 node H1 H2.
  { destruct node; simpl in H1; lia. }
  destruct fuel2 as [|fuel2]; [destruct node; simpl in H2; lia|].
  simpl. do 2 f_equal. apply map_ext_in. intros e He.
  apply list_elem_of_In, esize_child_lis in He. apply IH; lia.
Qed.

(** The measures of the markup unfold along [:scope > ul > li]. *)
Lemma li_measure_unfold combine node :
  li_measure combine (esize node) node
  = S (combine (map (λ e, li_measure combine (esize e) e)
                    (child_lis (children_of node)))).
Proof.
  destruct node as [t h x kids]. simpl. do 2 f_equal.
  apply map_ext_in. intros e He.
  apply list_elem_of_In in He.
  pose proof (esize_child_lis (Elem t h x kids) e He) as Hlt. simpl in Hlt.
  apply li_measure_fuel; lia.
Qed.







End ExtractorFacts.

(** ** The batch loop *)

Module BatchFacts.

Import LinkExtractor Main.

Lemma process_acc drivers i urls acc :
  process drivers i urls acc = acc ++ process drivers i urls [].
Proof.
  revert i acc. induction urls as [|url urls IH]; intros i acc; simpl.
  - by rewrite app_nil_r.
  - rewrite IH, (IH _ [_]). by rewrite app_assoc.
Qed.

Lemma process_app drivers i before after acc :
  process drivers i (before ++ after) acc
  = process drivers (i + length before) after (process drivers i before acc).
Proof.
  revert i acc. induction before as [|url before IH]; intros i acc; simpl.
  - by rewrite Nat.add_0_r.
  - rewrite IH. by replace (S i + length before) with (i + S (length before)) by lia.
Qed.

(** C5. When the readiness wait for a url times out, the extraction returns
    the placeholder titled ["Error: Timeout for <url>"] with no links and no
    table of contents, and the batch goes on: the entries before it are
    those of the urls before it, and the entries after it are those that
    the loop computes for the remaining urls. *)
Theorem timeout_gives_placeholder (drivers : nat → option Driver)
    (before after : list string) (url : string) (driver : Driver)
    (page : Page) :
  drivers (length before) = Some driver →
  driver url = Value page →
  wait_until title_ready (polled_titles page) = TimeoutException →
  extract_links_from_url (Some driver) url
  = {| links := []; toc_tree := [];
       page_title := "Error: Timeout for " +:+ url |}
  ∧ extract_all drivers (before ++ url :: after)
    = extract_all drivers before
      ++ [ {| DocxManager.source_url := url;
              DocxManager.page_title := "Error: Timeout for " +:+ url;
              DocxManager.links := [];
              DocxManager.toc_tree := [] |} ]
      ++ process drivers (S (length before)) after [].
Proof.
  intros Hdriver Hpage Hwait.
  assert (extract_links_from_url (Some driver) url
          = placeholder ("Error: Timeout for " +:+ url)) as Hex.
  { unfold extract_links_from_url. by rewrite Hpage, Hwait. }
  split; [done|].
  unfold extract_all. rewrite process_app. simpl.
  rewrite Hdriver, Hex, process_acc. by rewrite <-app_assoc.
Qed.

(** A batch of three urls whose second page keeps the login title until the
    deadline. *)
Lemma timeout_gives_placeholder_witness :
  let slow : Page :=
    {| polled_titles := [""; "Login"; "Login"]; title := "Login";
       crawl_anchors := Value []; locate_toc := Value None |} in
  let drivers : nat → option Driver := λ _, Some (λ _, Value slow) in
  extract_links_from_url (Some (λ _, Value slow)) "https://x/b"
  = {| links := []; toc_tree := [];
       page_title := "Error: Timeout for https://x/b" |}
  ∧ extract_all drivers (["https://x/a"] ++ "https://x/b" :: ["https://x/c"])
    = extract_all drivers ["https://x/a"]
      ++ [ {| DocxManager.source_url := "https://x/b";
              DocxManager.page_title := "Error: Timeout for https://x/b";
              DocxManager.links := [];
              DocxManager.toc_tree := [] |} ]
      ++ process drivers 2 ["https://x/c"] [].
Proof.
  intros slow drivers.
  apply (timeout_gives_placeholder drivers ["https://x/a"] ["https://x/c"]
           "https://x/b" (λ _, Value slow) slow); reflexivity.
Defined.

End BatchFacts.

(** ** The hyperlink embedding routine *)

Module HyperlinkFacts.

Import DocxManager Layout.

Section Facts.
Context {Part : Type} {lib : Library Part}.

Lemma document_eta (d : Doc Part) : d = document (body d) (package d).
Proof. by destruct d. Qed.

Lemma bind_returned {X Y} (m : M Part X) (k : X → M Part Y) d a d' :
  m d = (Returned a, d') → bind m k d = k a d'.
Proof. unfold bind. by intros ->. Qed.

Lemma alter_append_extend a inlines h (l : list Paragraph) :
  alter (append_inline a) h (alter (extend_paragraph inlines) h l)
  = alter (extend_paragraph (inlines ++ [a])) h l.
Proof.
  rewrite list_alter_alter_eq. apply list_alter_ext; [|done].
  intros p _. unfold append_inline, extend_paragraph. simpl.
  by rewrite <-app_assoc.
Qed.

Lemma alter_append_first a h (l : list Paragraph) :
  alter (append_inline a) h l = alter (extend_paragraph [a]) h l.
Proof. reflexivity. Qed.



(** What the second tier and the third after it do, on any paragraph. *)
Lemma tier_two_three_spec h url text l pk :
  ∃ r, try_except (tier_two h url text) (tier_three h url text)
         (document l pk)
       = (Returned r,
          document (alter (extend_paragraph (embed_rebuilt pk url text).1) h l)
                   (embed_rebuilt pk url text).2).
Proof.
  destruct pk as [pt log].
  unfold try_except, tier_two, tier_three, embed_rebuilt, bind, add_run,
    append_element, update, relate, ret, document. simpl.
  destruct (relate_to pt url) as [[r_id pt']|]; simpl; eexists;
    rewrite (alter_append_first _ h l), !alter_append_extend; reflexivity.
Qed.

(** The routine never raises; what it adds to the paragraph and what it
    does to the package is [embed]. *)
Lemma add_hyperlink_spec h url text l pk :
  ∃ r, _add_hyperlink h url text (document l pk)
       = (Returned r,
          document (alter (extend_paragraph (embed pk url text).1) h l)
                   (embed pk url text).2).
Proof.
  unfold _add_hyperlink, embed.
  destruct (not_eligible url).
  { destruct pk. by eexists. }
  unfold try_except at 1.
  destruct (tier_one h url text (document l pk)) as [[r|] d1] eqn:Hone.
  - destruct pk as [pt log].
    unfold tier_one, bind, relate, parse, append_element, update, ret,
      document in Hone. simpl in *.
    destruct (relate_to pt url) as [[r_id pt']|]; [|done].
    destruct (parse_xml (hyperlink_xml r_id text)); [|done].
    injection Hone as <- <-. by eexists.
  - destruct pk as [pt log].
    unfold tier_one, bind, relate, parse, append_element, update, ret,
      document in Hone. simpl in *.
    destruct (relate_to pt url) as [[r_id pt']|].
    + destruct (parse_xml (hyperlink_xml r_id text)); [done|].
      injection Hone as <-.
      apply (tier_two_three_spec h url text l (pt', log ++ [url])).
    + injection Hone as <-.
      apply (tier_two_three_spec h url text l (pt, log ++ [url])).
Qed.

Lemma add_hyperlink_never_raises h url text (d : Doc Part) :
  ∃ r d', _add_hyperlink h url text d = (Returned r, d').
Proof.
  rewrite (document_eta d).
  destruct (add_hyperlink_spec h url text (body d) (package d)) as [r Hr].
  eauto.
Qed.



End Facts.



End HyperlinkFacts.

(** ** The document assembler *)

Module AssemblerFacts.

Import DocxManager Layout HyperlinkFacts.

Section Facts.
Context {Part : Type} {lib : Library Part}.

Implicit Types (l : list Paragraph) (pk : Part * list string).

(** *** One step of the assembler on the last paragraph *)

Lemma run_add_paragraph {Y} p (k : nat → M Part Y) l pk :
  bind (add_paragraph p) k (document l pk)
  = k (length l) (document (l ++ [p]) pk).
Proof. reflexivity. Qed.

Lemma alter_last {X} (f : X → X) (l : list X) (p : X) :
  alter f (length l) (l ++ [p]) = l ++ [f p].
Proof.
  replace (length l) with (length l + 0) by lia. by rewrite alter_app_r.
Qed.

Lemma run_update_last {Y} f (k : unit → M Part Y) l p pk :
  bind (update (length l) f) k (document (l ++ [p]) pk)
  = k tt (document (l ++ [f p]) pk).
Proof. unfold bind, update, document. simpl. by rewrite alter_last. Qed.

Lemma run_add_run_last {Y} r (k : unit → M Part Y) l p pk :
  bind (add_run (length l) r) k (document (l ++ [p]) pk)
  = k tt (document (l ++ [append_inline (IRun r) p]) pk).
Proof. apply run_update_last. Qed.

Lemma end_add_run_last r l p pk :
  add_run (length l) r (document (l ++ [p]) pk)
  = (Returned tt, document (l ++ [append_inline (IRun r) p]) pk).
Proof. unfold add_run, update, document. simpl. by rewrite alter_last. Qed.

Lemma run_hyperlink_last {Y} url text (k : M Part Y) l p pk :
  bind (_add_hyperlink (length l) url text) (λ _, k) (document (l ++ [p]) pk)
  = k (document (l ++ [extend_paragraph (embed pk url text).1 p])
                (embed pk url text).2).
Proof.
  destruct (add_hyperlink_spec (length l) url text (l ++ [p]) pk) as [r Hr].
  rewrite (bind_returned _ _ _ _ _ Hr). by rewrite alter_last.
Qed.

Lemma run_returned {Y} (m : M Part unit) (k : M Part Y) d d' :
  m d = (Returned tt, d') → bind m (λ _, k) d = k d'.
Proof. apply bind_returned. Qed.

Ltac step :=
  first [ rewrite run_add_paragraph | rewrite run_update_last
        | rewrite run_add_run_last | rewrite run_hyperlink_last
        | rewrite end_add_run_last ];
  cbv beta.

(** *** Layouts *)

Lemma lay_out_cons {X} (f : Part * list string → X → _) pk (x : X) rest :
  lay_out f pk (x :: rest)
  = ((f pk x).1 ++ (lay_out f (f pk x).2 rest).1,
     (lay_out f (f pk x).2 rest).2).
Proof.
  simpl. destruct (f pk x) as [ps pk1]. simpl.
  by destruct (lay_out f pk1 rest).
Qed.

Lemma lay_out_app {X} (f : Part * list string → X → _) pk (xs ys : list X) :
  lay_out f pk (xs ++ ys)
  = ((lay_out f pk xs).1 ++ (lay_out f (lay_out f pk xs).2 ys).1,
     (lay_out f (lay_out f pk xs).2 ys).2).
Proof.
  revert pk. induction xs as [|x xs IH]; intros pk.
  - simpl. by destruct (lay_out f pk ys).
  - rewrite <-app_comm_cons, !lay_out_cons, IH. simpl. by rewrite app_assoc.
Qed.

Lemma for_each_lays_out {X Y} (xs : list X) (body : X → M Part unit)
    (f : Part * list string → Y → _) (g : X → list Y) :
  Forall (λ x, lays_out (body x) (λ pk, lay_out f pk (g x))) xs →
  lays_out (for_each xs body) (λ pk, lay_out f pk (flat_map g xs)).
Proof.
  induction 1 as [|x xs Hx _ IH]; intros l pk.
  - simpl. by rewrite app_nil_r.
  - change (for_each (x :: xs) body)
      with (bind (body x) (λ _, for_each xs body)).
    rewrite (run_returned _ _ _ _ (Hx l pk)), IH.
    simpl. rewrite lay_out_app. simpl. by rewrite app_assoc.
Qed.

Lemma for_enumerate_lays_out {X} (xs : list X) (body : nat → X → M Part unit)
    (f : Part * list string → nat * X → _) i :
  (∀ j x, lays_out (body j x) (λ pk, f pk (j, x))) →
  lays_out (for_enumerate i xs body) (λ pk, lay_out f pk (enumerate i xs)).
Proof.
  intros Hbody. revert i. induction xs as [|x xs IH]; intros i l pk.
  - simpl. by rewrite app_nil_r.
  - change (for_enumerate i (x :: xs) body)
      with (bind (body i x) (λ _, for_enumerate (S i) xs body)).
    rewrite (run_returned _ _ _ _ (Hbody i x l pk)), IH.
    change (enumerate i (x :: xs)) with ((i, x) :: enumerate (S i) xs).
    rewrite lay_out_cons. simpl. by rewrite app_assoc.
Qed.

Lemma TocNode_nested_ind (P : TocNode → Prop) :
  (∀ text url children, Forall P children →
     P (LinkExtractor.Node text url children)) →
  ∀ node, P node.
Proof.
  intros Hnode. fix IH 1. intros [text url children]. apply Hnode.
  induction children as [|child children IHc]; constructor; [apply IH | done].
Qed.

Lemma bind_assoc {X Y Z} (m : M Part X) (f : X → M Part Y)
    (k : Y → M Part Z) d :
  bind (bind m f) k d = bind m (λ a, bind (f a) k) d.
Proof. unfold bind. by destruct (m d) as [[a|] d']. Qed.

(** The paragraph of one node (lines 233-238). *)
Lemma run_node_paragraph {Y} text url children level (k : M Part Y) l pk :
  bind (add_paragraph empty_paragraph)
    (λ p, bind (update p (indent (Inches_quarter level)))
       (λ _, bind (match get_url url with
                   | Some u => bind (_add_hyperlink p u text) (λ _, ret tt)
                   | None => add_run p (set_bold (new_run text))
                   end)
               (λ _, k)))
    (document l pk)
  = k (document
         (l ++ (toc_paragraph pk
                  (level, LinkExtractor.Node text url children)).1)
         (toc_paragraph pk (level, LinkExtractor.Node text url children)).2).
Proof.
  step. step. unfold toc_paragraph.
  cbn [LinkExtractor.node_url LinkExtractor.node_text].
  destruct (get_url url) as [u|].
  - rewrite bind_assoc. step. by destruct (embed pk u text).
  - by step.
Qed.

Lemma write_node_lays_out node level :
  lays_out (write_node node level)
           (λ pk, lay_out toc_paragraph pk (outline level node)).
Proof.
  revert level. induction node as [text url children IH]
    using TocNode_nested_ind. intros level l pk.
  cbn [write_node outline].
  rewrite lay_out_cons, (run_node_paragraph text url children).
  rewrite (for_each_lays_out children _ toc_paragraph (outline (S level))).
  - cbn [fst snd]. by rewrite <-app_assoc.
  - eapply Forall_impl; [exact IH|]. intros child Hchild. apply Hchild.
Qed.

Lemma lays_out_bind (m n : M Part unit) f g :
  lays_out m f → lays_out n g →
  lays_out (bind m (λ _, n))
           (λ pk, ((f pk).1 ++ (g (f pk).2).1, (g (f pk).2).2)).
Proof.
  intros Hm Hn l pk. rewrite (run_returned _ _ _ _ (Hm l pk)), Hn.
  cbn [fst snd]. by rewrite app_assoc.
Qed.

Lemma write_link_lays_out j link :
  lays_out (write_link j link) (λ pk, numbered_link pk (j, link)).
Proof.
  intros l pk. unfold write_link, numbered_link. do 4 step.
  destruct (embed pk (LinkExtractor.url link) (LinkExtractor.text link)).
  unfold ret. cbn [fst snd]. by rewrite <-app_assoc.
Qed.

Lemma write_body_lays_out links toc_tree :
  lays_out (write_body links toc_tree) (λ pk, body_layout pk links toc_tree).
Proof.
  unfold write_body, body_layout.
  destruct toc_tree as [|top toc_tree]; [destruct links as [|link links]|];
    cbn [nonempty].
  - intros l pk. unfold ret. cbn [fst snd]. by rewrite app_nil_r.
  - apply (for_enumerate_lays_out _ _ numbered_link), write_link_lays_out.
  - apply (for_each_lays_out _ _ toc_paragraph (outline 0)).
    apply Forall_forall. intros node _. apply write_node_lays_out.
Qed.

Lemma write_header_lays_out i url_data :
  lays_out (write_header i url_data) (λ pk, header_layout pk i url_data).
Proof.
  intros l pk. unfold write_header, header_layout. do 8 step.
  destruct (embed pk (source_url url_data) (source_url url_data)).
  unfold ret. cbn [fst snd]. by rewrite <-!app_assoc.
Qed.

Lemma write_separator_lays_out i total :
  lays_out (write_separator i total) (λ pk, (separator_layout i total, pk)).
Proof.
  intros l pk. unfold write_separator, separator_layout.
  destruct (bool_decide (i < total)).
  - do 3 step. unfold ret. cbn [fst snd]. by rewrite <-!app_assoc.
  - unfold ret. cbn [fst snd]. by rewrite app_nil_r.
Qed.

Lemma write_source_lays_out total i url_data :
  lays_out (write_source total i url_data)
           (λ pk, source_layout total pk (i, url_data)).
Proof.
  intros l pk. unfold write_source.
  rewrite (lays_out_bind _ _ _ _ (write_header_lays_out i url_data)
             (lays_out_bind _ _ _ _
                (write_body_lays_out (links url_data) (toc_tree url_data))
                (write_separator_lays_out i total))).
  unfold source_layout.
  destruct (header_layout pk i url_data) as [hs pk1].
  cbn [fst snd]. by destruct (body_layout pk1 _ _).
Qed.

Lemma write_front_lays_out title now :
  lays_out (write_front title now)
    (λ pk, ([center (heading title 0);
             center (paragraph_of
                       [IRun (set_italic (new_run ("Generated on " +:+ now)))]);
             empty_paragraph], pk)).
Proof.
  intros l pk. unfold write_front. do 6 step.
  unfold ret. cbn [fst snd]. by rewrite <-!app_assoc.
Qed.

Lemma write_summary_lays_out extracted_data :
  lays_out (write_summary extracted_data)
    (λ pk, ([heading "Summary" 1;
             summary_paragraph (length extracted_data)
                               (total_links extracted_data)], pk)).
Proof.
  intros l pk. unfold write_summary. do 6 step.
  cbn [fst snd]. by rewrite <-!app_assoc.
Qed.

Lemma assemble_lays_out title now extracted_data :
  lays_out (assemble title now extracted_data)
    (λ pk, (front_layout title now extracted_data
            ++ (lay_out (source_layout (length extracted_data)) pk
                        (enumerate 1 extracted_data)).1,
            (lay_out (source_layout (length extracted_data)) pk
                     (enumerate 1 extracted_data)).2)).
Proof.
  intros l pk. unfold assemble.
  rewrite (run_returned _ _ _ _ (write_front_lays_out title now l pk)).
  rewrite (run_returned _ _ _ _ (write_summary_lays_out extracted_data _ _)).
  step.
  rewrite (for_enumerate_lays_out _ _
             (source_layout (length extracted_data)) 1
             (write_source_lays_out (length extracted_data))).
  cbn [fst snd front_layout]. by rewrite <-!app_assoc.
Qed.

(** The assembler never takes its [except] clause, and the document it
    saves is the one laid out by [document_layout]. *)
Lemma create_document_layout blank title now extracted_data :
  create_document blank title now extracted_data
  = Some (document (document_layout blank title now extracted_data).1
                   (document_layout blank title now extracted_data).2).
Proof.
  unfold create_document, document_layout.
  change {| body := []; part := blank; relate_log := [] |}
    with (document [] (blank, [])).
  rewrite assemble_lays_out. cbn [fst snd].
  by destruct (lay_out _ _ _).
Qed.

(** C6. In the document that [create_document] saves, the summary paragraph
    (the fifth paragraph) states the number of entries of [extracted_data]
    as the source count, and as the link count the sum of the lengths of
    their flat link lists, whatever their table-of-contents trees are. *)
Theorem summary_counts (blank : Part) (title now : string)
    (extracted_data : list UrlData) :
  ∃ doc,
    create_document blank title now extracted_data = Some doc
    ∧ body doc !! 4
      = Some (paragraph_of
                [IRun (set_bold (new_run "Total Sources Processed: "));
                 IRun (new_run (pretty (length extracted_data)
                                +:+ Str.newline));
                 IRun (set_bold (new_run "Total Links Extracted: "));
                 IRun (new_run
                         (pretty (sum_list (map (λ data, length (links data))
                                                extracted_data))))]).
Proof.
  eexists. split; [apply create_document_layout|].
  unfold document_layout. by destruct (lay_out _ _ _).
Qed.



End Facts.

End AssemblerFacts.

(** ** Scenario C, on a sample library *)

Module ScenarioFacts.

Import DocxManager Layout.

(** A grouping label with two child links is written as the label in bold
    and, indented below it, the two hyperlinks; the flat link list is
    ignored. *)
Example scenario_C :
  let toc_tree :=
    [LinkExtractor.Node "Group" None
       [LinkExtractor.Node "A" (Some "https://x/release-notes/a") [];
        LinkExtractor.Node "B" (Some "https://x/release-notes/b") []]] in
  let links :=
    [ {| LinkExtractor.text := "A";
         LinkExtractor.url := "https://x/release-notes/a";
         LinkExtractor.original_href := "https://x/release-notes/a" |} ] in
  write_body (lib := Samples.numbering) links toc_tree
    {| body := []; part := 0; relate_log := [] |}
  = (Returned tt,
     {| body :=
          [ indent 0%N (paragraph_of [IRun (set_bold (new_run "Group"))]);
            indent 228600%N
              (paragraph_of [IRun (new_run "");
                             IElement (built_hyperlink "rId2" "A")]);
            indent 228600%N
              (paragraph_of [IRun (new_run "");
                             IElement (built_hyperlink "rId4" "B")]) ];
        part := 4;
        relate_log := ["https://x/release-notes/a"; "https://x/release-notes/a";
                       "https://x/release-notes/b"; "https://x/release-notes/b"]
     |}).
Proof. by vm_compute. Qed.

(** Scenario B: of two urls the first times out and the second yields three
    links and no table of contents. The document has the summary "2 sources,
    3 links", a first section with the error title and no link, and a second
    section with the three numbered links. *)
Example scenario_B :
  let anchor (name : string) : LinkExtractor.Anchor :=
    {| LinkExtractor.a_href := "https://x/release-notes/" +:+ name;
       LinkExtractor.a_text := "Feature " +:+ name |} in
  let slow : LinkExtractor.Page :=
    {| LinkExtractor.polled_titles := ["Login"; "Login"];
       LinkExtractor.title := "Login";
       LinkExtractor.crawl_anchors := LinkExtractor.Value [];
       LinkExtractor.locate_toc := LinkExtractor.Value None |} in
  let notes : LinkExtractor.Page :=
    {| LinkExtractor.polled_titles := [""; "Notes"];
       LinkExtractor.title := "Notes";
       LinkExtractor.crawl_anchors :=
         LinkExtractor.Value [anchor "a"; anchor "b"; anchor "c"];
       LinkExtractor.locate_toc := LinkExtractor.Value None |} in
  let drivers (i : nat) : option LinkExtractor.Driver :=
    Some (λ _, LinkExtractor.Value (if (i =? 0)%nat then slow else notes)) in
  let extracted_data :=
    Main.extract_all drivers ["https://x/a"; "https://x/b"] in
  ∃ doc,
    create_document (lib := Samples.rejecting) tt "Report" "today"
      extracted_data = Some doc
    ∧ length (body doc) = 22
    ∧ body doc !! 4 = Some (summary_paragraph 2 3)
    ∧ body doc !! 6 = Some (heading "1. Error: Timeout for https://x/a" 1)
    ∧ body doc !! 8
      = Some (paragraph_of [IRun (set_bold (new_run "Links Found: "));
                            IRun (new_run "0")])
    ∧ body doc !! 12 = Some (heading "2. Notes" 1)
    ∧ body doc !! 20
      = Some (paragraph_of
                (IRun (set_bold (new_run "3. "))
                 :: IRun (new_run "")
                 :: readable_link "https://x/release-notes/c" "Feature c")).
Proof. eexists. split; [by vm_compute|]. by vm_compute. Qed.

End ScenarioFacts.

(** * Further properties *)

(** ** White space stripping *)

Module StripFacts.

Import Str Shape.

Lemma str_app_assoc (a b c : string) : (a +:+ b) +:+ c = a +:+ (b +:+ c).
Proof.
  induction a as [|x a IH]; [done|].
  by rewrite !StrFacts.app_cons, IH.
Qed.

Lemma str_app_empty_r (a : string) : a +:+ "" = a.
Proof.
  induction a as [|x a IH]; [done|]. by rewrite StrFacts.app_cons, IH.
Qed.

Lemma rev_app_app s t : String.rev_app s t = String.rev s +:+ t.
Proof.
  unfold String.rev. revert t. induction s as [|a s IH]; intros t; [done|].
  simpl. rewrite (IH (String a t)), (IH (String a "")).
  by rewrite str_app_assoc.
Qed.

Lemma rev_cons a s : String.rev (String a s) = String.rev s +:+ String a "".
Proof. unfold String.rev at 1. simpl. apply rev_app_app. Qed.

Lemma rev_app a b : String.rev (a +:+ b) = String.rev b +:+ String.rev a.
Proof.
  induction a as [|x a IH].
  - by rewrite str_app_empty_r.
  - by rewrite StrFacts.app_cons, !rev_cons, IH, str_app_assoc.
Qed.

Lemma rev_involutive s : String.rev (String.rev s) = s.
Proof.
  induction s as [|a s IH]; [done|]. by rewrite rev_cons, rev_app, IH.
Qed.

Lemma all_chars_app p a b :
  all_chars p (a +:+ b) = all_chars p a && all_chars p b.
Proof.
  induction a as [|x a IH]; [done|].
  rewrite StrFacts.app_cons. simpl. by rewrite IH, andb_assoc.
Qed.


(** [lstrip] removes a prefix of white space and leaves a clean start. *)
Lemma lstrip_split sp s :
  ∃ ws, s = ws +:+ lstrip_with sp s ∧ all_chars sp ws = true.
Proof.
  induction s as [|c s (ws & Hs & Hws)]; [by exists ""|].
  simpl. destruct (sp c) eqn:Hc.
  - exists (String c ws). rewrite StrFacts.app_cons, <-Hs. simpl.
    by rewrite Hc, Hws.
  - by exists "".
Qed.

Lemma lstrip_clean sp s : clean_start sp (lstrip_with sp s).
Proof.
  induction s as [|c s IH]; [done|]. simpl.
  by destruct (sp c) eqn:Hc.
Qed.

Lemma lstrip_id sp s : clean_start sp s → lstrip_with sp s = s.
Proof. destruct s as [|c s]; [done|]. simpl. by intros ->. Qed.

Lemma clean_start_app sp a b :
  a ≠ "" → clean_start sp (a +:+ b) → clean_start sp a.
Proof. by destruct a. Qed.


Lemma strip_clean sp s : clean_ends sp (strip_with sp s).
Proof.
  split.
  - destruct (strip_with sp s) as [|c t] eqn:Hstrip; [done|].
    unfold strip_with in Hstrip.
    destruct (lstrip_split sp (String.rev (lstrip_with sp s)))
      as (ws & Hrev & Hws).
    assert (lstrip_with sp s = String c t +:+ String.rev ws) as Hl.
    { rewrite <-(rev_involutive (lstrip_with sp s)), Hrev, rev_app.
      by rewrite Hstrip. }
    pose proof (lstrip_clean sp s) as Hclean. by rewrite Hl in Hclean.
  - unfold strip_with. rewrite rev_involutive. apply lstrip_clean.
Qed.

Lemma strip_id sp s : clean_ends sp s → strip_with sp s = s.
Proof.
  intros [Hstart Hend]. unfold strip_with.
  by rewrite (lstrip_id sp s), (lstrip_id sp (String.rev s)), rev_involutive.
Qed.

Lemma strip_idempotent sp s :
  strip_with sp (strip_with sp s) = strip_with sp s.
Proof. apply strip_id, strip_clean. Qed.


End StripFacts.

(** ** More on the classifier *)

Module ClassifierMore.

Import LinkExtractor Spec ClassifierFacts.

(** An iteration of the filter loop either passes the anchor on, as a link
    with the stripped text and the href, or leaves the list as it is. *)
Lemma filter_step_spec links item :
  (filter_step links item
   = links ++ [ {| text := Str.strip (a_text item); url := a_href item;
                   original_href := a_href item |} ]
   ∧ Str.strip (a_text item) ≠ "" ∧ a_href item ≠ ""
   ∧ Str.contains "release-notes" (a_href item) = true
   ∧ is_noise (Str.strip (a_text item)) = false)
  ∨ (filter_step links item = links
     ∧ (Str.strip (a_text item) = "" ∨ a_href item = ""
        ∨ Str.contains "release-notes" (a_href item) = false
        ∨ is_noise (Str.strip (a_text item)) = true)).
Proof.
  unfold filter_step.
  set (text := Str.strip (a_text item)). set (href := a_href item).
  destruct (Str.truthy text) eqn:Ht; cbn [negb orb].
  2:{ right. split; [done|]. left. by destruct text. }
  destruct (Str.truthy href) eqn:Hh; cbn [negb].
  2:{ right. split; [done|]. right. left. by destruct href. }
  destruct (Str.contains "release-notes" href) eqn:Hm; cbn [negb].
  2:{ right. split; [done|]. right. right. by left. }
  destruct (is_noise text) eqn:Hn.
  { right. split; [done|]. right. right. by right. }
  left. apply StrFacts.truthy_true in Ht, Hh. by repeat split.
Qed.

Lemma filter_step_acc acc item :
  filter_step acc item = acc ++ filter_step [] item.
Proof. unfold filter_step. repeat case_match; by rewrite ?app_nil_r. Qed.

Lemma filter_links_acc raw acc :
  foldl filter_step acc raw = acc ++ filter_links raw.
Proof.
  unfold filter_links. revert acc.
  induction raw as [|item raw IH]; intros acc; simpl; [by rewrite app_nil_r|].
  by rewrite IH, (IH (filter_step [] item)), app_assoc, <-filter_step_acc.
Qed.

Lemma filter_links_cons item raw :
  filter_links (item :: raw) = filter_step [] item ++ filter_links raw.
Proof. unfold filter_links at 1. simpl. apply filter_links_acc. Qed.

Lemma filter_links_app raw1 raw2 :
  filter_links (raw1 ++ raw2) = filter_links raw1 ++ filter_links raw2.
Proof.
  unfold filter_links at 1. rewrite foldl_app. apply filter_links_acc.
Qed.

Lemma is_noise_false text :
  is_noise text = false →
  ∀ word, word ∈ noise_words → Str.contains word (Str.lower text) = false.
Proof.
  unfold is_noise. intros Hnone word Hword.
  destruct (Str.contains word (Str.lower text)) eqn:Hc; [|done].
  assert (existsb (λ w, Str.contains w (Str.lower text)) noise_words = true)
    as Hsome; [|congruence].
  apply existsb_exists. exists word. split; [|done]. by apply list_elem_of_In.
Qed.

Lemma dedupe_app links1 links2 :
  dedupe (links1 ++ links2)
  = dedupe links1
    ++ filter (λ link, url link ∉ url <$> links1) (dedupe links2).
Proof.
  induction links2 as [|x links2 IH] using rev_ind.
  - by rewrite !app_nil_r.
  - rewrite app_assoc, !dedupe_snoc, IH, filter_app, <-app_assoc.
    do 2 f_equal. rewrite fmap_app.
    destruct (decide (url x ∈ url <$> links2)) as [H2|H2].
    + rewrite decide_True by (apply elem_of_app; by right). done.
    + destruct (decide (url x ∈ url <$> links1)) as [H1|H1].
      * rewrite decide_True by (apply elem_of_app; by left).
        rewrite filter_cons_False; [done|]. by intros Hn.
      * rewrite decide_False.
        2:{ intros [?|?]%elem_of_app; done. }
        by rewrite filter_cons_True.
Qed.


(** Every link that the classifier emits comes from an anchor of the
    input: its url is that anchor's href and its text the anchor's text,
    stripped. Its text and url are not empty, the url contains
    ["release-notes"], the text in lower case contains none of the
    navigation words, and the text neither begins nor ends with white
    space. *)
Lemma classify_relevant (raw_links : list Anchor) :
  Forall (λ link,
            (∃ item, item ∈ raw_links ∧ url link = a_href item
                     ∧ text link = Str.strip (a_text item))
            ∧ text link ≠ "" ∧ url link ≠ ""
            ∧ Str.contains "release-notes" (url link) = true
            ∧ (∀ word, word ∈ noise_words →
                 Str.contains word (Str.lower (text link)) = false)
            ∧ Shape.clean_ends Str.py_isspace (text link))
         (classify raw_links).
Proof.
  apply Forall_forall. intros link Hlink.
  eapply elem_of_sublist in Hlink; [|apply classify_sublist].
  revert link Hlink. apply Forall_forall.
  induction raw_links as [|item raw IH]; [constructor|].
  rewrite filter_links_cons. apply Forall_app. split.
  - destruct (filter_step_spec [] item)
      as [[-> (Ht & Hh & Hm & Hn)]|[-> _]]; [|constructor].
    repeat constructor; simpl; try done.
    + exists item. split; [apply list_elem_of_here | done].
    + by apply is_noise_false.
    + apply StripFacts.strip_clean.
    + apply StripFacts.strip_clean.
  - eapply Forall_impl; [exact IH|]. simpl.
    intros link ((it & Hit & Hrest) & Hothers). split; [|done].
    exists it. split; [by apply list_elem_of_further | done].
Qed.




(** X3. Classifying two anchor sequences one after the other: the result
    is the result for the first, followed by those links of the result for
    the second whose url the first has not produced. *)
Theorem classify_app (raw1 raw2 : list Anchor) :
  classify (raw1 ++ raw2)
  = classify raw1
    ++ filter (λ link, url link ∉ url <$> classify raw1) (classify raw2).
Proof.
  unfold classify. rewrite filter_links_app, dedupe_app. f_equal.
  apply list_filter_iff. intros link. by rewrite dedupe_urls.
Qed.

(** X4. The de-duplication leaves a list of links with pairwise distinct
    urls as it is; in particular it leaves its own results as they are. *)
Theorem dedupe_distinct_is_identity (links : list Link) :
  NoDup (url <$> links) → dedupe links = links.
Proof.
  induction links as [|x links IH] using rev_ind; [done|].
  rewrite fmap_app. intros Hnodup.
  apply NoDup_app in Hnodup as (Hlinks & Hx & _).
  rewrite dedupe_snoc, (IH Hlinks). case_decide as Hin; [|done].
  destruct (Hx (url x) Hin). simpl. apply list_elem_of_here.
Qed.

Lemma dedupe_distinct_is_identity_witness :
  let links :=
    [ {| text := "A"; url := "https://x/release-notes/a";
         original_href := "https://x/release-notes/a" |};
      {| text := "A"; url := "https://x/release-notes/b";
         original_href := "https://x/release-notes/b" |} ] in
  dedupe links = links.
Proof.
  intros links. apply (dedupe_distinct_is_identity links).
  apply (bool_decide_unpack _). by vm_compute.
Defined.

(** X5. When several anchors share a url, the link of the first one that
    passes the filters is the one kept: for every url, the first link with
    that url is the same in the result as among the filtered links. *)
Theorem classify_keeps_first_link (raw_links : list Anchor) (u : string) :
  head (filter (λ link, url link = u) (classify raw_links))
  = head (filter (λ link, url link = u) (filter_links raw_links)).
Proof.
  unfold classify.
  induction (filter_links raw_links) as [|x links IH] using rev_ind; [done|].
  rewrite dedupe_snoc, !filter_app.
  case_decide as Hin; [|by rewrite !head_app, IH].
  rewrite filter_nil, app_nil_r, IH.
  destruct (decide (url x = u)) as [Hu|Hu].
  - assert (u ∈ url <$> links) as Hsome by by rewrite <-Hu.
    apply list_elem_of_fmap in Hsome as (y & Hy & Hyl).
    assert (y ∈ filter (λ link, url link = u) links) as Hf
      by by apply list_elem_of_filter.
    destruct (filter (λ link, url link = u) links); [|done].
    by apply elem_of_nil in Hf.
  - by rewrite filter_cons_False, filter_nil, app_nil_r.
Qed.


End ClassifierMore.

(** ** More on the extraction *)

Module ExtractorMore.

Import LinkExtractor Spec ClassifierFacts.

(** The wait times out exactly when none of the titles that it polls
    satisfies the method. *)
Lemma wait_times_out_iff (method : string → bool) (polls : list string) :
  wait_until method polls = TimeoutException
  ↔ Forall (λ d_title, method d_title = false) polls.
Proof.
  induction polls as [|t polls IH]; simpl; [done|].
  rewrite Forall_cons. destruct (method t); [|by rewrite IH; tauto].
  split; [done | by intros [? _]].
Qed.

(** X7. Whatever the browser does (no driver, a navigation error, a
    timeout, a failing script, or a page), the links of the returned
    dictionary have pairwise distinct urls, each url contains
    ["release-notes"], no text is empty, and [original_href] equals
    [url]. *)
Theorem extraction_links_invariant (driver : option Driver) (url_ : string) :
  let result := extract_links_from_url driver url_ in
  NoDup (url <$> links result)
  ∧ Forall (λ link, Str.contains "release-notes" (url link) = true
                    ∧ text link ≠ "" ∧ original_href link = url link)
           (links result).
Proof.
  assert (NoDup (url <$> @nil Link)
          ∧ Forall (λ link, Str.contains "release-notes" (url link) = true
                            ∧ text link ≠ "" ∧ original_href link = url link)
                   []) as Hnil by (split; constructor).
  unfold extract_links_from_url.
  destruct driver as [d|]; [|done].
  destruct (d url_) as [page|]; [|done].
  destruct (wait_until _ _); [|done].
  destruct (crawl_anchors page) as [raw|]; [|done].
  destruct (locate_toc page); [|done].
  simpl. split; [apply dedupe_NoDup|].
  apply Forall_forall. intros link Hlink. split; [|split].
  - pose proof (ClassifierMore.classify_relevant raw) as Hrel.
    rewrite Forall_forall in Hrel. by destruct (Hrel link Hlink) as (_&_&_&?&_).
  - pose proof (ClassifierMore.classify_relevant raw) as Hrel.
    rewrite Forall_forall in Hrel. by destruct (Hrel link Hlink) as (_&?&_).
  - eapply elem_of_sublist in Hlink; [|apply classify_sublist].
    pose proof (filter_links_href_is_url raw) as Hhref.
    rewrite Forall_forall in Hhref. by apply Hhref.
Qed.




End ExtractorMore.

(** ** The anchor crawler *)

Module CrawlerFacts.

Import LinkExtractor Crawler.






End CrawlerFacts.

(** ** More on the hyperlink embedding routine *)

Module HyperlinkMore.

Import DocxManager Layout HyperlinkFacts.

Section Facts.
Context {Part : Type} {lib : Library Part}.





(** X14. When the library registers the relationship and parses the
    fragment, the first tier succeeds: the paragraph gains the parsed
    element and nothing else, [relate_to] has been called once, and the
    part is the one that the registration left. *)
Theorem first_tier_embeds_the_fragment (paragraph : nat)
    (url text r_id : string) (part' : Part) (element : Xml) (d : Doc Part) :
  not_eligible url = false →
  relate_to (part d) url = Some (r_id, part') →
  parse_xml (hyperlink_xml r_id text) = Some element →
  _add_hyperlink paragraph url text d
  = (Returned (IElement element),
     {| body := alter (append_inline (IElement element)) paragraph (body d);
        part := part';
        relate_log := relate_log d ++ [url] |}).
Proof.
  intros Hurl Hrelate Hparse.
  unfold _add_hyperlink, try_except, tier_one, bind, relate, parse,
    append_element, update, ret.
  by rewrite Hurl, Hrelate, Hparse.
Qed.


End Facts.

Lemma first_tier_embeds_the_fragment_witness :
  let d : Doc nat :=
    {| body := [empty_paragraph]; part := 0; relate_log := [] |} in
  ∃ element,
    _add_hyperlink (lib := MoreSamples.accepting) 0 "https://x/a" "A" d
    = (Returned (IElement element),
       {| body := [paragraph_of [IElement element]]; part := 1;
          relate_log := ["https://x/a"] |}).
Proof.
  intros d. eexists.
  apply (first_tier_embeds_the_fragment (lib := MoreSamples.accepting) 0
           "https://x/a" "A" "rId1" 1 _ d); reflexivity.
Defined.


End HyperlinkMore.

(** ** More on the document assembler *)

Module AssemblerMore.

Import DocxManager Layout HyperlinkFacts AssemblerFacts Sizes.

Section Facts.
Context {Part : Type} {lib : Library Part}.

Implicit Types (pk : Part * list string).

(** *** Layouts, entry by entry *)

Lemma lay_out_Forall {X} (P : Paragraph → Prop)
    (f : Part * list string → X → _) pk (xs : list X) :
  (∀ pk x, Forall P (f pk x).1) → Forall P (lay_out f pk xs).1.
Proof.
  intros Hf. revert pk. induction xs as [|x xs IH]; intros pk; [constructor|].
  rewrite lay_out_cons. cbn [fst]. apply Forall_app_2; [apply Hf | apply IH].
Qed.


Lemma lay_out_filter {X} (P : Paragraph → Prop) `{!∀ p, Decision (P p)}
    (f : Part * list string → X → _) (g : X → list Paragraph) pk
    (xs : list X) :
  (∀ pk x, filter P (f pk x).1 = g x) →
  filter P (lay_out f pk xs).1 = flat_map g xs.
Proof.
  intros Hf. revert pk. induction xs as [|x xs IH]; intros pk; [done|].
  rewrite lay_out_cons. cbn [fst flat_map]. by rewrite filter_app, Hf, IH.
Qed.

Lemma lay_out_length {X} (f : Part * list string → X → _) (m : X → nat) pk
    (xs : list X) :
  (∀ pk x, length (f pk x).1 = m x) →
  length (lay_out f pk xs).1 = sum_list (m <$> xs).
Proof.
  intros Hf. revert pk. induction xs as [|x xs IH]; intros pk; [done|].
  rewrite lay_out_cons. cbn [fst]. by rewrite length_app, Hf, IH.
Qed.

Lemma filter_none (P : Paragraph → Prop) `{!∀ p, Decision (P p)}
    (ps : list Paragraph) :
  Forall (λ p, ¬ P p) ps → filter P ps = [].
Proof.
  induction 1 as [|p ps Hp _ IH]; [done|]. by rewrite filter_cons_False.
Qed.

Lemma embed_rebuilt_unsized pk url text :
  Forall unsized (embed_rebuilt pk url text).1.
Proof.
  unfold embed_rebuilt. destruct (relate_to pk.1 url) as [[??]|];
    by repeat constructor.
Qed.

Lemma embed_unsized pk url text : Forall unsized (embed pk url text).1.
Proof.
  unfold embed. destruct (not_eligible url); [by repeat constructor|].
  destruct (relate_to pk.1 url) as [[??]|]; [destruct (parse_xml _)|];
    try apply embed_rebuilt_unsized. by repeat constructor.
Qed.

Lemma toc_paragraph_plain pk entry : Forall plain (toc_paragraph pk entry).1.
Proof.
  destruct entry as [level node]. unfold toc_paragraph.
  destruct (get_url _) as [u|]; [|by repeat constructor].
  pose proof (embed_unsized pk u (LinkExtractor.node_text node)) as Hu.
  destruct (embed pk u _). by repeat constructor.
Qed.

Lemma numbered_link_plain pk entry : Forall plain (numbered_link pk entry).1.
Proof.
  destruct entry as [j link]. unfold numbered_link.
  pose proof (embed_unsized pk (LinkExtractor.url link)
                (LinkExtractor.text link)) as Hu.
  destruct (embed pk _ _). by repeat constructor.
Qed.

Lemma body_layout_plain pk links toc_tree :
  Forall plain (body_layout pk links toc_tree).1.
Proof.
  unfold body_layout. destruct toc_tree; [destruct links|].
  - constructor.
  - apply lay_out_Forall, numbered_link_plain.
  - apply lay_out_Forall, toc_paragraph_plain.
Qed.

(** The parts of a section. *)
Lemma source_layout_parts total pk i url_data :
  ∃ inlines pk1 paragraphs pk2,
    embed pk (source_url url_data) (source_url url_data) = (inlines, pk1)
    ∧ body_layout pk1 (links url_data) (toc_tree url_data) = (paragraphs, pk2)
    ∧ source_layout total pk (i, url_data)
      = ([heading (pretty i +:+ ". " +:+ page_title url_data) 1;
          paragraph_of (IRun (set_bold (new_run "Source: ")) :: inlines);
          paragraph_of [IRun (set_bold (new_run "Links Found: "));
                        IRun (new_run (pretty (length (links url_data))))];
          empty_paragraph]
         ++ paragraphs ++ separator_layout i total, pk2).
Proof.
  unfold source_layout, header_layout.
  destruct (embed pk _ _) as [inlines pk1].
  destruct (body_layout pk1 _ _) as [paragraphs pk2] eqn:Hbody.
  by exists inlines, pk1, paragraphs, pk2.
Qed.

Lemma separator_layout_cases i total :
  (i < total ∧ separator_layout i total = [center separator; empty_paragraph])
  ∨ (¬ i < total ∧ separator_layout i total = []).
Proof.
  unfold separator_layout. case_bool_decide; [left | right]; by split.
Qed.

Lemma source_headings total pk i url_data :
  filter (λ p, is_Some (heading_level p))
         (source_layout total pk (i, url_data)).1
  = [heading (pretty i +:+ ". " +:+ page_title url_data) 1].
Proof.
  destruct (source_layout_parts total pk i url_data)
    as (inlines & pk1 & paragraphs & pk2 & _ & Hbody & ->).
  cbn [fst]. rewrite !filter_app.
  rewrite (filter_none _ paragraphs).
  2:{ pose proof (body_layout_plain pk1 (links url_data) (toc_tree url_data))
        as Hplain. rewrite Hbody in Hplain.
      eapply Forall_impl; [exact Hplain|].
      intros p (Hh & _) Hsome. rewrite Hh in Hsome. by destruct Hsome. }
  rewrite (filter_none _ (separator_layout i total)).
  2:{ destruct (separator_layout_cases i total) as [[_ ->]|[_ ->]];
        repeat constructor; by intros []. }
  rewrite !app_nil_r, filter_cons_True by done.
  by rewrite !filter_cons_False by by intros [].
Qed.

Lemma source_centered total pk i url_data :
  filter (λ p, centered p = true) (source_layout total pk (i, url_data)).1
  = if bool_decide (i < total) then [center separator] else [].
Proof.
  destruct (source_layout_parts total pk i url_data)
    as (inlines & pk1 & paragraphs & pk2 & _ & Hbody & ->).
  cbn [fst]. rewrite !filter_app.
  rewrite (filter_none _ paragraphs).
  2:{ pose proof (body_layout_plain pk1 (links url_data) (toc_tree url_data))
        as Hplain. rewrite Hbody in Hplain.
      eapply Forall_impl; [exact Hplain|].
      intros p (_ & Hc & _) Htrue. congruence. }
  rewrite !filter_cons_False, filter_nil by done. cbn [app].
  unfold separator_layout. case_bool_decide; [|done].
  by rewrite filter_cons_True, filter_cons_False.
Qed.

Lemma enumerate_cons {X} k (x : X) xs :
  enumerate k (x :: xs) = (k, x) :: enumerate (S k) xs.
Proof. reflexivity. Qed.

Lemma separators_between {X Y} (y : Y) total k (xs : list X) :
  k + length xs = S total →
  flat_map (λ entry : nat * X,
              if bool_decide (entry.1 < total) then [y] else [])
           (enumerate k xs)
  = replicate (length xs - 1) y.
Proof.
  revert k. induction xs as [|x xs IH]; intros k Hk; [done|].
  rewrite enumerate_cons. cbn [flat_map fst length] in *.
  destruct xs as [|x' xs].
  - rewrite bool_decide_eq_false_2 by (simpl in Hk; lia). done.
  - rewrite bool_decide_eq_true_2 by (simpl in Hk; lia).
    rewrite IH by (simpl in *; lia). simpl. by rewrite Nat.sub_0_r.
Qed.


(** X17. The headings of the saved document are, in this order: the title,
    ["Summary"], and for each entry of the data, in the order of the data
    and numbered from 1, the number and the page title. No other paragraph
    is a heading. *)
Theorem headings_follow_the_data (blank : Part) (title now : string)
    (extracted_data : list UrlData) :
  ∃ doc,
    create_document blank title now extracted_data = Some doc
    ∧ filter (λ p, is_Some (heading_level p)) (body doc)
      = center (heading title 0)
        :: heading "Summary" 1
        :: ((λ entry : nat * UrlData,
               heading (pretty entry.1 +:+ ". " +:+ page_title entry.2) 1)
              <$> enumerate 1 extracted_data).
Proof.
  eexists. split; [apply create_document_layout|].
  unfold document_layout.
  pose proof (lay_out_filter (λ p, is_Some (heading_level p))
                (source_layout (length extracted_data))
                (λ entry, [heading (pretty entry.1 +:+ ". "
                                    +:+ page_title entry.2) 1])
                (blank, []) (enumerate 1 extracted_data)
                ltac:(intros pk' [i d]; apply source_headings)) as Hsections.
  destruct (lay_out _ _ _) as [sections pk].
  cbn [fst snd document body] in *. rewrite filter_app, Hsections.
  unfold front_layout.
  rewrite filter_cons_True, filter_cons_False, filter_cons_False by
    (by intros [] || done).
  rewrite filter_cons_True, !filter_cons_False, filter_nil by
    (by intros [] || done).
  cbn [app]. by do 2 f_equal.
Qed.

(** X18. A separator line stands between two sections and nowhere else:
    the centred paragraphs of the saved document are the title, the date
    line and one separator less than there are entries (none for an empty
    or a one-entry batch). *)
Theorem separators_stand_between_sections (blank : Part)
    (title now : string) (extracted_data : list UrlData) :
  ∃ doc,
    create_document blank title now extracted_data = Some doc
    ∧ filter (λ p, centered p = true) (body doc)
      = [center (heading title 0);
         center (paragraph_of
                   [IRun (set_italic (new_run ("Generated on " +:+ now)))])]
        ++ replicate (length extracted_data - 1) (center separator).
Proof.
  eexists. split; [apply create_document_layout|].
  unfold document_layout.
  pose proof (lay_out_filter (λ p, centered p = true)
                (source_layout (length extracted_data))
                (λ entry, if bool_decide (entry.1 < length extracted_data)
                          then [center separator] else [])
                (blank, []) (enumerate 1 extracted_data)
                ltac:(intros pk' [i d]; apply source_centered)) as Hsections.
  destruct (lay_out _ _ _) as [sections pk].
  cbn [fst snd document body] in *. rewrite filter_app, Hsections.
  rewrite separators_between by done.
  unfold front_layout.
  by rewrite !filter_cons_True, !filter_cons_False, filter_nil by done.
Qed.

(** *** The targets registered *)




(** *** The number of paragraphs *)

Lemma outline_length level (node : TocNode) :
  length (outline level node) = Spec.toc_size node.
Proof.
  revert level. induction node as [text url children IH]
    using TocNode_nested_ind. intros level.
  cbn [outline length]. unfold Spec.toc_size in *.
  cbn [Spec.toc_measure]. f_equal.
  induction IH as [|child children Hchild _ IHc]; [done|].
  cbn [flat_map map sum_list sum_list_with]. by rewrite length_app, Hchild, IHc.
Qed.

Lemma body_layout_length pk url_data :
  length (body_layout pk (links url_data) (toc_tree url_data)).1
  = body_size url_data.
Proof.
  unfold body_layout, body_size.
  destruct (toc_tree url_data) as [|top rest] eqn:Htoc;
    [destruct (links url_data) as [|link more] eqn:Hlinks|].
  - done.
  - rewrite (lay_out_length _ (λ _, 2)).
    2:{ intros pk' [j l]. unfold numbered_link. by destruct (embed pk' _ _). }
    rewrite sum_list_fmap_const. unfold enumerate.
    rewrite length_zip, length_seq. lia.
  - rewrite (lay_out_length _ (λ _, 1)).
    2:{ intros pk' [level node]. unfold toc_paragraph.
        destruct (get_url _); [|done]. by destruct (embed pk' _ _). }
    rewrite sum_list_fmap_const, Nat.mul_1_r.
    generalize (top :: rest). intros toc.
    induction toc as [|node toc IH]; [done|].
    cbn [flat_map fmap list_fmap sum_list sum_list_with].
    by rewrite length_app, outline_length, IH.
Qed.

Lemma source_length total pk i url_data :
  length (source_layout total pk (i, url_data)).1
  = 4 + body_size url_data + (if bool_decide (i < total) then 2 else 0).
Proof.
  destruct (source_layout_parts total pk i url_data)
    as (inlines & pk1 & paragraphs & pk2 & _ & Hbody & ->).
  pose proof (body_layout_length pk1 url_data) as Hlen.
  rewrite Hbody in Hlen. cbn [fst] in *.
  rewrite !length_app, Hlen. unfold separator_layout.
  case_bool_decide; simpl; lia.
Qed.

Lemma sections_length total k (xs : list UrlData) :
  k + length xs = S total →
  sum_list ((λ entry : nat * UrlData,
               4 + body_size entry.2
               + (if bool_decide (entry.1 < total) then 2 else 0))
              <$> enumerate k xs)
  = sum_list ((λ url_data, 4 + body_size url_data) <$> xs)
    + 2 * (length xs - 1).
Proof.
  revert k. induction xs as [|x xs IH]; intros k Hk; [done|].
  rewrite enumerate_cons. cbn [fmap list_fmap sum_list sum_list_with fst snd].
  destruct xs as [|x' xs].
  - rewrite bool_decide_eq_false_2 by (simpl in Hk; lia). simpl. lia.
  - rewrite bool_decide_eq_true_2 by (simpl in Hk; lia).
    rewrite IH by (simpl in *; lia). simpl. lia.
Qed.

(** X20. The saved document has six paragraphs of front matter, for each
    entry four paragraphs of header and its body (one paragraph per node of
    its tree if it has a tree, whatever its flat list holds, else two per
    link), and two paragraphs for each separator between entries. *)
Theorem paragraph_count (blank : Part) (title now : string)
    (extracted_data : list UrlData) :
  ∃ doc,
    create_document blank title now extracted_data = Some doc
    ∧ length (body doc)
      = 6 + sum_list ((λ url_data, 4 + body_size url_data) <$> extracted_data)
        + 2 * (length extracted_data - 1).
Proof.
  eexists. split; [apply create_document_layout|].
  unfold document_layout.
  pose proof (lay_out_length (source_layout (length extracted_data))
                (λ entry, 4 + body_size entry.2
                          + (if bool_decide (entry.1 < length extracted_data)
                             then 2 else 0))
                (blank, []) (enumerate 1 extracted_data)
                ltac:(intros pk' [i d]; apply source_length)) as Hlen.
  destruct (lay_out _ _ _) as [sections pk].
  cbn [fst snd document body] in *.
  rewrite length_app, Hlen, sections_length by done. simpl. lia.
Qed.

(** X21. No run of the saved document carries a font size: the reduced
    size of the url in the third tier is computed from the unset size of a
    new run, and so stays unset. *)
Theorem no_run_is_sized (blank : Part) (title now : string)
    (extracted_data : list UrlData) :
  ∃ doc,
    create_document blank title now extracted_data = Some doc
    ∧ Forall (λ p, Forall unsized (content p)) (body doc).
Proof.
  eexists. split; [apply create_document_layout|].
  unfold document_layout.
  pose proof (lay_out_Forall (λ p, Forall unsized (content p))
                (source_layout (length extracted_data)) (blank, [])
                (enumerate 1 extracted_data)) as Hsections.
  destruct (lay_out _ _ _) as [sections pk].
  cbn [fst snd document body] in *.
  apply Forall_app_2; [by repeat constructor|].
  apply Hsections. intros pk' [i d].
  destruct (source_layout_parts (length extracted_data) pk' i d)
    as (inlines & pk1 & paragraphs & pk2 & Hembed & Hbody & ->).
  cbn [fst].
  pose proof (embed_unsized pk' (source_url d) (source_url d)) as Hu.
  rewrite Hembed in Hu.
  pose proof (body_layout_plain pk1 (links d) (toc_tree d)) as Hplain.
  rewrite Hbody in Hplain.
  repeat apply Forall_app_2.
  - by repeat constructor.
  - eapply Forall_impl; [exact Hplain|]. by intros p (_ & _ & ?).
  - destruct (separator_layout_cases i (length extracted_data))
      as [[_ ->]|[_ ->]]; by repeat constructor.
Qed.

End Facts.

End AssemblerMore.

(** ** The batch, the url input and the file name *)

Module MainMore.

Import LinkExtractor Main UrlInput Shape.

Lemma process_imap drivers k urls acc :
  process drivers k urls acc
  = acc ++ imap (λ i url_,
                   entry url_ (extract_links_from_url (drivers (k + i)) url_))
                urls.
Proof.
  revert k acc. induction urls as [|u urls IH]; intros k acc; simpl.
  - by rewrite app_nil_r.
  - rewrite IH, <-app_assoc, Nat.add_0_r. simpl. do 2 f_equal.
    apply imap_ext. intros i x _. simpl. do 3 f_equal. lia.
Qed.

(** X22. The batch yields one entry per url, in the order of the urls and
    each under its url; the entry of a url depends on that url and on the
    browser session of its own iteration only. *)
Theorem batch_follows_the_urls (drivers : nat → option Driver)
    (urls : list string) :
  extract_all drivers urls
  = imap (λ i url_, entry url_ (extract_links_from_url (drivers i) url_)) urls
  ∧ DocxManager.source_url <$> extract_all drivers urls = urls.
Proof.
  assert (extract_all drivers urls
          = imap (λ i url_,
                    entry url_ (extract_links_from_url (drivers i) url_))
                 urls) as Hall.
  { unfold extract_all. by rewrite process_imap. }
  split; [done|]. rewrite Hall. clear Hall.
  generalize drivers. induction urls as [|u urls IH]; intros ds; [done|].
  simpl. f_equal. apply (IH (λ i, ds (S i))).
Qed.

(** *** Splitting the input into lines *)

Lemma split_cons_sep sep rest :
  split sep (String sep rest) = "" :: split sep rest.
Proof. simpl. by rewrite bool_decide_eq_true_2. Qed.

Lemma split_not_nil sep s : split sep s ≠ [].
Proof.
  destruct s as [|c s]; [done|]. simpl.
  case_bool_decide; [done|]. by destruct (split sep s).
Qed.

Lemma split_cons_other sep c rest :
  c ≠ sep →
  ∃ first others,
    split sep rest = first :: others
    ∧ split sep (String c rest) = String c first :: others.
Proof.
  intros Hc. simpl. rewrite bool_decide_eq_false_2 by done.
  pose proof (split_not_nil sep rest) as Hne.
  destruct (split sep rest) as [|first others]; [done|].
  by exists first, others.
Qed.

Lemma split_app sep a b :
  split sep (a +:+ String sep b) = split sep a ++ split sep b.
Proof.
  induction a as [|c a IH].
  - change ("" +:+ String sep b) with (String sep b).
    by rewrite split_cons_sep.
  - rewrite StrFacts.app_cons. destruct (decide (c = sep)) as [->|Hc].
    + by rewrite !split_cons_sep, IH.
    + destruct (split_cons_other sep c a Hc) as (f1 & o1 & Ha & ->).
      destruct (split_cons_other sep c (a +:+ String sep b) Hc)
        as (f2 & o2 & Hab & ->).
      rewrite IH, Ha in Hab. simpl in Hab. by injection Hab as <- <-.
Qed.





(** X24. The urls of two inputs joined by a line break are the urls of the
    first followed by the urls of the second: every line is read on its
    own. *)
Theorem parse_urls_of_joined_inputs (input1 input2 : string) :
  parse_urls (input1 +:+ Str.newline +:+ input2)
  = parse_urls input1 ++ parse_urls input2.
Proof.
  unfold parse_urls, Str.newline.
  change (String "010" "" +:+ input2) with (String LF input2).
  by rewrite split_app, omap_app.
Qed.



(** *** The file name *)

Lemma replace_char_no_space s :
  all_chars Download.not_space (Download.replace_char " " "_" s) = true.
Proof.
  induction s as [|c s IH]; [done|]. simpl. rewrite IH, andb_true_r.
  unfold Download.not_space.
  destruct (decide (c = " "%char)) as [->|Hc]; [done|].
  by rewrite (bool_decide_eq_false_2 _ Hc), (bool_decide_eq_false_2 _ Hc).
Qed.

(** X26. The name of the downloaded file holds no space when the time
    stamp holds none, whatever the title, and ends with [.docx]. *)
Theorem filename_has_no_space (doc_title timestamp : string) :
  all_chars Download.not_space timestamp = true →
  all_chars Download.not_space (Download.filename doc_title timestamp) = true
  ∧ ∃ stem, Download.filename doc_title timestamp = stem +:+ ".docx".
Proof.
  intros Hstamp. unfold Download.filename. split.
  - rewrite !StripFacts.all_chars_app, replace_char_no_space, Hstamp. done.
  - exists (Download.replace_char " " "_" doc_title +:+ "_" +:+ timestamp).
    by rewrite !StripFacts.str_app_assoc.
Qed.

Lemma filename_has_no_space_witness :
  all_chars Download.not_space
    (Download.filename "Extracted Links Report" "20260102_030405") = true
  ∧ ∃ stem,
      Download.filename "Extracted Links Report" "20260102_030405"
      = stem +:+ ".docx".
Proof.
  apply (filename_has_no_space "Extracted Links Report" "20260102_030405").
  reflexivity.
Defined.

End MainMore.
